(** * data_pipeline/update_date.py: alignment of prices, returns and macro data

    A shallow embedding of the pipeline script and of the pandas operations it
    calls, followed by the properties of the pipeline.

    Conventions of the embedding.
    - A date is a day number ([Z]); the daily frequency ["D"] is [+1].
    - A [float64] cell is [NaN], a signed infinity or an exact rational.
      Rounding is abstracted away; the exceptional values follow IEEE 754 as
      numpy applies it ([x/0] is infinite, [0/0] and [inf/inf] are [NaN], every
      operation on [NaN] is [NaN]).  pandas treats [NaN] as the only missing
      value of a float column: infinities are not missing.
    - A frame is row-major: the index label of each row with its cells, in
      column order. *)

From Stdlib Require Import QArith.
From stdpp Require Import base option list strings sorting.

Local Open Scope string_scope.
Local Open Scope list_scope.
Local Open Scope Z_scope.

(** ** float64 cells *)

Inductive float64 : Type :=
  | NaN
  | Inf (neg : bool)
  | Fin (q : Q).

Definition isna (x : float64) : bool :=
  match x with NaN => true | _ => false end.

Definition notna (x : float64) : bool := negb (isna x).

Definition Qneg (q : Q) : bool := Z.ltb (Qnum q) 0.
Definition Qzero (q : Q) : bool := Z.eqb (Qnum q) 0.

(** [x / y]; a zero carries no sign, so [x / 0] has the sign of [x]. *)
Definition fdiv (x y : float64) : float64 :=
  match x, y with
  | NaN, _ | _, NaN => NaN
  | Inf _, Inf _ => NaN
  | Inf s, Fin q => Inf (xorb s (Qneg q))
  | Fin _, Inf _ => Fin 0
  | Fin p, Fin q =>
      if Qzero q then (if Qzero p then NaN else Inf (Qneg p))
      else Fin (p / q)
  end.

(** [x - y] *)
Definition fsub (x y : float64) : float64 :=
  match x, y with
  | NaN, _ | _, NaN => NaN
  | Inf s, Inf s' => if Bool.eqb s s' then NaN else Inf s
  | Inf s, Fin _ => Inf s
  | Fin _, Inf s => Inf (negb s)
  | Fin p, Fin q => Fin (p - q)
  end.

(** The cell of [pct_change]: [x / y - 1]. *)
Definition pct (x y : float64) : float64 := fsub (fdiv x y) (Fin 1).

(** A price as a provider reports it: present, finite and not zero. *)
Definition quoted (x : float64) : bool :=
  match x with Fin q => negb (Qzero q) | _ => false end.

(** ** Series and frames *)

Abbreviation date := Z (only parsing).

Record Series := mkSeries {
  sname : option string;
  sindex_name : option string;
  sdata : list (date * float64)
}.

Abbreviation row := (date * list float64)%type (only parsing).

Record DataFrame := mkDF {
  index_name : option string;
  columns : list string;
  rows : list row
}.

Definition index (df : DataFrame) : list date := fmap fst (rows df).
Definition values (df : DataFrame) : list (list float64) := fmap snd (rows df).
Definition width (df : DataFrame) : nat := length (columns df).

(** [df.iloc[t, j]] *)
Definition iloc (df : DataFrame) (t j : nat) : option float64 :=
  r ← rows df !! t; r.2 !! j.

(** Every row has one cell per column. *)
Definition rectangular (df : DataFrame) : Prop :=
  Forall (λ r : row, length r.2 = width df) (rows df).

(** [df.index.name = name] *)
Definition set_index_name (name : string) (df : DataFrame) : DataFrame :=
  {| index_name := Some name; columns := columns df; rows := rows df |}.

(** [df.columns = cols] *)
Definition set_columns (cols : list string) (df : DataFrame) : DataFrame :=
  {| index_name := index_name df; columns := cols; rows := rows df |}.

Definition with_rows (df : DataFrame) (rs : list row) : DataFrame :=
  {| index_name := index_name df; columns := columns df; rows := rs |}.

(** ** pandas operations *)

(** One step of a forward fill: a missing cell takes the cell above it. *)
Fixpoint fill_row (prev cur : list float64) : list float64 :=
  match cur with
  | [] => []
  | c :: cur' =>
      (if isna c then hd NaN prev else c) :: fill_row (tl prev) cur'
  end.

Fixpoint ffill_from (prev : list float64) (rs : list row) : list row :=
  match rs with
  | [] => []
  | (d, vs) :: rs' =>
      let vs' := fill_row prev vs in (d, vs') :: ffill_from vs' rs'
  end.

(** [DataFrame.ffill()]: along each column, a missing cell takes the last
    valid cell above it, and stays missing when there is none. *)
Definition ffill (df : DataFrame) : DataFrame :=
  with_rows df (ffill_from [] (rows df)).

Definition nan_row (df : DataFrame) : list float64 := replicate (width df) NaN.

(** [DataFrame.shift(periods)] for [periods >= 0]: the index stays, the values
    move down by [periods] rows and the vacated rows are missing. *)
Definition shift (periods : nat) (df : DataFrame) : DataFrame :=
  with_rows df
    (zip_with (λ (r : row) vs, (r.1, vs)) (rows df)
       (replicate periods (nan_row df) ++ values df)).

(** [a / b] on two frames with the same labels. *)
Definition frame_div (a b : DataFrame) : DataFrame :=
  with_rows a
    (zip_with (λ (r s : row), (r.1, zip_with fdiv r.2 s.2)) (rows a) (rows b)).

(** [a - c] for a scalar [c]. *)
Definition frame_sub_scalar (a : DataFrame) (c : float64) : DataFrame :=
  with_rows a (fmap (λ r : row, (r.1, fmap (λ x, fsub x c) r.2)) (rows a)).

(** The [fill_method] argument of [pct_change].  The script leaves it to the
    library default, which is ["pad"] up to pandas 2.x and [None] from 3.0. *)
Inductive fill_method := Pad | NoFill.

(** [DataFrame.pct_change(periods, fill_method)]:
    [data = self.ffill()] (when padding); [data / data.shift(periods) - 1]. *)
Definition fill_data (fm : fill_method) (df : DataFrame) : DataFrame :=
  match fm with Pad => ffill df | NoFill => df end.

Definition pct_change (fm : fill_method) (periods : nat) (df : DataFrame) : DataFrame :=
  let data := fill_data fm df in
  let shifted := shift periods data in
  frame_sub_scalar (frame_div data shifted) (Fin 1).

Definition row_complete (r : row) : bool := forallb notna r.2.
Definition row_empty (r : row) : bool := forallb isna r.2.

(** [DataFrame.dropna()], that is [how="any"]: a row with a missing cell goes. *)
Definition dropna (df : DataFrame) : DataFrame :=
  with_rows df (List.filter row_complete (rows df)).

(** [DataFrame.dropna(how="all")]: a row goes when all of its cells are missing. *)
Definition dropna_all (df : DataFrame) : DataFrame :=
  with_rows df (List.filter (λ r, negb (row_empty r)) (rows df)).

(** ** pandas operations on labels *)

(** [df.loc[d]]: the row labelled [d]. *)
Definition loc (df : DataFrame) (d : date) : option (list float64) :=
  snd <$> List.find (λ r : row, Z.eqb r.1 d) (rows df).

(** [df.reindex(ix)]: the rows of [df] at the labels [ix], missing where [df]
    has no such label. *)
Definition reindex (df : DataFrame) (ix : list date) : DataFrame :=
  with_rows df (fmap (λ d, (d, default (nan_row df) (loc df d))) ix).

Fixpoint insert_date (d : date) (l : list date) : list date :=
  match l with
  | [] => [d]
  | x :: l' =>
      if d <? x then d :: l
      else if d =? x then l
      else x :: insert_date d l'
  end.

(** The sorted union of several indexes. *)
Definition union_index (ixs : list (list date)) : list date :=
  foldr insert_date [] (concat ixs).

Definition common_name (names : list (option string)) : option string :=
  match names with
  | [] => None
  | n :: ns => if forallb (λ m, bool_decide (m = n)) ns then n else None
  end.

(** [pd.concat(frames, axis=1)] on a non-empty list of frames whose labels are
    dates: the frames side by side on the sorted union of their indexes (an
    outer join), a frame being missing at the labels it does not have.  The
    labels of each frame are distinct: on a repeated label pandas cannot
    align the frames and raises, which is left out. *)
Definition concat_axis1 (frames : list DataFrame) : DataFrame :=
  {| index_name := common_name (fmap index_name frames);
     columns := concat (fmap columns frames);
     rows := fmap (λ d, (d, concat (fmap (λ df, default (nan_row df) (loc df d)) frames)))
                 (union_index (fmap index frames)) |}.

(** [Series.rename(name)] and [Series.to_frame()] *)
Definition rename (name : string) (s : Series) : Series :=
  {| sname := Some name; sindex_name := sindex_name s; sdata := sdata s |}.

(** A series without a name becomes the column labelled [0]. *)
Definition to_frame (s : Series) : DataFrame :=
  {| index_name := sindex_name s;
     columns := [default "0" (sname s)];
     rows := fmap (λ p : date * float64, (p.1, [p.2])) (sdata s) |}.

(** [pd.date_range(lo, hi, freq="D")] *)
Definition date_range (lo hi : date) : list date :=
  seqZ lo (hi - lo + 1).

(** The row a pad takes for the label [d]: the one at the last label [<= d]. *)
Definition asof (rs : list row) (d : date) : option (list float64) :=
  snd <$> last (List.filter (λ r : row, r.1 <=? d) rs).

(** [df.resample("D").ffill()] on a frame whose index increases: an upsample,
    [df.reindex(days, method="ffill")] over the days from the first label to
    the last.  Each day takes the whole row of the last label at or before it;
    the fill compares labels only, so a cell that is missing in that row stays
    missing.  A frame without rows has no day to start from: the result has no
    row either, and its index is a new one, without a name. *)
Definition resample_D_ffill (df : DataFrame) : DataFrame :=
  match head (index df), last (index df) with
  | Some lo, Some hi =>
      with_rows df
        (fmap (λ d, (d, default (nan_row df) (asof (rows df) d))) (date_range lo hi))
  | _, _ => {| index_name := None; columns := columns df; rows := [] |}
  end.

(** ** Exceptions *)

Inductive exn :=
  | NameError (name : string)
  | TypeError (msg : string)
  | KeyError (key : string)
  | ValueError (msg : string)
  | ProviderError (msg : string).

Definition result (A : Type) : Type := exn + A.

Definition rbind {A B} (r : result A) (k : A → result B) : result B :=
  match r with inr a => k a | inl e => inl e end.

Declare Scope result_scope.
Delimit Scope result_scope with result.
Notation "x <- r ;; k" := (rbind r (λ x, k))
  (at level 100, r at next level, right associativity) : result_scope.

Definition overlap (xs ys : list string) : bool :=
  existsb (λ x, bool_decide (x ∈ ys)) xs.

(** [left.join(right, how="left")]: the rows of [left], each with the row of
    [right] at its label, missing where [right] has no such label.  The labels
    of [right] are distinct; overlapping column names are refused. *)
Definition join_left (left right : DataFrame) : result DataFrame :=
  if overlap (columns left) (columns right)
  then inl (ValueError "columns overlap but no suffix specified")
  else inr {| index_name := index_name left;
              columns := columns left ++ columns right;
              rows := fmap (λ r : row, (r.1, r.2 ++ default (nan_row right) (loc right r.1)))
                          (rows left) |}.

(** [left.join(right, how="left").ffill()] *)
Definition join_ffill (left right : DataFrame) : result DataFrame :=
  (joined <- join_left left right ;; inr (ffill joined))%result.

(** ** The providers *)

(** The columns of a [yf.download] frame: the price fields alone, or pairs of
    a price field and a ticker. *)
Inductive column_index :=
  | FlatIndex (labels : list string)
  | MultiIndex (labels : list (string * string)).

Record Response := mkResponse {
  resp_index_name : option string;
  resp_columns : column_index;
  resp_rows : list row
}.

Inductive pdobj :=
  | ASeries (s : Series)
  | AFrame (df : DataFrame).

(** The cells of a row under the columns that a mask selects. *)
Definition pick (mask : list bool) (vs : list float64) : list float64 :=
  fmap snd (List.filter fst (zip mask vs)).

(** [resp[key]]: on flat columns the column labelled [key], a series when it
    is the only one; on paired columns the frame of the columns whose first
    level is [key], labelled by the second level. *)
Definition getitem (r : Response) (key : string) : result pdobj :=
  match resp_columns r with
  | FlatIndex ls =>
      let mask := String.eqb key <$> ls in
      match List.filter id mask with
      | [] => inl (KeyError key)
      | [_] =>
          inr (ASeries {| sname := Some key;
                          sindex_name := resp_index_name r;
                          sdata := fmap (λ x : row, (x.1, default NaN (head (pick mask x.2))))
                                       (resp_rows r) |})
      | _ =>
          inr (AFrame {| index_name := resp_index_name r;
                         columns := List.filter (String.eqb key) ls;
                         rows := fmap (λ x : row, (x.1, pick mask x.2)) (resp_rows r) |})
      end
  | MultiIndex ks =>
      let mask := (λ k : string * string, String.eqb key k.1) <$> ks in
      if existsb id mask
      then inr (AFrame {| index_name := resp_index_name r;
                          columns := fmap snd (List.filter (λ k, String.eqb key k.1) ks);
                          rows := fmap (λ x : row, (x.1, pick mask x.2)) (resp_rows r) |})
      else inl (KeyError key)
  end.

(** What the run reads from outside: the environment once [load_dotenv()] has
    run, [yf.download(tickers, start=start, auto_adjust=True, progress=False)]
    and [Fred(api_key=key).get_series(code)]. *)
Record World := mkWorld {
  environ : string → option string;
  yf_download : list string → string → result Response;
  fred_get_series : string → string → result Series
}.

(** What the installed pandas fixes: the default [fill_method] of
    [pct_change], and [df.rolling(window).std()], whose numerics are left to
    the library. *)
Record Library := mkLibrary {
  default_fill_method : fill_method;
  rolling_std : nat → DataFrame → DataFrame
}.

(** ** The script *)

Definition DATA_RAW : string := "data/raw".
Definition DATA_PROC : string := "data/processed".

Definition get_universe : list string :=
  [ "AAPL";"MSFT";"GOOGL";"AMZN";"META";"NVDA";"BRK-B";"XOM";"JNJ";"JPM";
    "V";"PG";"AVGO";"UNH";"HD";"MA";"LLY";"KO";"PFE";"PEP";"ABBV";"BAC";"COST";
    "CSCO";"ADBE";"TMO";"MCD";"NFLX";"DIS";"CRM";"WMT";"NKE";"TXN";"INTC";"AMD";
    "QCOM";"AMAT";"LIN";"ACN";"PM";"DHR";"UPS";"MS";"GS";"BLK";"CAT";"HON";"IBM";
    "BKNG";"ORCL";"BA";"SPGI";"GE";"AMT";"LOW";"MDLZ";"SBUX";"CVX";"NOW";"ISRG" ].

Definition default_start : string := "2018-01-01".

(** The alignment of [get_macro], from the fetched frames on:
    [macro = pd.concat(frames, axis=1)], [macro.index.name = "date"],
    [macro = macro.resample("D").ffill()]. *)
Definition align_macro (frames : list DataFrame) : DataFrame :=
  let macro := concat_axis1 frames in
  let macro := set_index_name "date" macro in
  resample_D_ffill macro.

(** [compute_returns(prices)], where [fm] is the library's default
    [fill_method]. *)
Definition compute_returns (fm : fill_method) (prices : DataFrame) : DataFrame :=
  let returns := dropna (pct_change fm 1 prices) in
  set_index_name "date" returns.

Section Script.
Context (w : World).
Local Open Scope result_scope.

(** [download_prices(tickers, start)] *)
Definition download_prices (tickers : list string) (start : string) : result DataFrame :=
  resp <- yf_download w tickers start;;
  df <- getitem resp "Close";;
  let df := match df with
            | ASeries s => to_frame s
            | AFrame df => df
            end in
  inr (set_index_name "date" df).

Definition series : list (string * string) :=
  [("FEDFUNDS", "fed_funds"); ("CPIAUCSL", "cpi"); ("DGS10", "treasury_10y")].

(** The loop of [get_macro] over [series.items()], from [frames]. *)
Fixpoint fetch_frames (fred_key : string) (items : list (string * string))
    (frames : list DataFrame) : result (list DataFrame) :=
  match items with
  | [] => inr frames
  | (code, name) :: items' =>
      s <- fred_get_series w fred_key code;;
      let s := to_frame (rename name s) in
      fetch_frames fred_key items' (frames ++ [s])
  end.

(** [get_macro(fred_key)] *)
Definition get_macro (fred_key : string) : result DataFrame :=
  frames <- fetch_frames fred_key series [];;
  inr (align_macro frames).
End Script.

(** *** The run *)

Record filesystem := mkFS {
  dirs : list string;
  files : list (string * DataFrame);
  stdout : list string
}.

(** The monad of [main]: exceptions over the state of the file system. *)
Definition M (A : Type) : Type := filesystem → result A * filesystem.

Definition ret {A} (a : A) : M A := λ fs, (inr a, fs).
Definition raise {A} (e : exn) : M A := λ fs, (inl e, fs).
Definition bind {A B} (m : M A) (k : A → M B) : M B :=
  λ fs, match m fs with
        | (inr a, fs') => k a fs'
        | (inl e, fs') => (inl e, fs')
        end.
Definition lift {A} (r : result A) : M A := λ fs, (r, fs).

Declare Scope py_scope.
Delimit Scope py_scope with py.
Notation "x <- m ;; k" := (bind m (λ x, k))
  (at level 100, m at next level, right associativity) : py_scope.
Notation "m ;;; k" := (bind m (λ _, k))
  (at level 100, right associativity) : py_scope.

(** The directories on the way to a relative path, outermost first: [a],
    [a/b] and [a/b/c] for [a/b/c] (character 47 is the slash). *)
Fixpoint ancestors (pre s : string) : list string :=
  match s with
  | EmptyString => [pre]
  | String c s' =>
      if Ascii.eqb c (Ascii.ascii_of_nat 47) then pre :: ancestors (pre +:+ "/") s'
      else ancestors (pre +:+ String c EmptyString) s'
  end.

(** [os.mkdir(path)] unless the directory exists. *)
Definition mkdir_exist_ok (path : string) (fs : filesystem) : filesystem :=
  if bool_decide (path ∈ dirs fs) then fs
  else mkFS (dirs fs ++ [path]) (files fs) (stdout fs).

(** [os.makedirs(path, exist_ok=True)]: the missing directories on the way to
    [path] are made, and then [path] itself, outermost first.  No regular
    file stands at [path] or on the way to it: there [os.makedirs] raises
    [FileExistsError] or [NotADirectoryError], which are left out. *)
Definition makedirs (path : string) : M unit :=
  λ fs, (inr tt, foldl (λ fs p, mkdir_exist_ok p fs) fs (ancestors "" path)).

(** [df.to_csv(path)]: the file at [path] is replaced. *)
Definition write_csv (df : DataFrame) (path : string) (fs : filesystem) : filesystem :=
  mkFS (dirs fs)
       (List.filter (λ f, negb (String.eqb f.1 path)) (files fs) ++ [(path, df)])
       (stdout fs).

Definition to_csv (df : DataFrame) (path : string) : M unit :=
  λ fs, (inr tt, write_csv df path fs).

(** [print(a, b, ...)]: the arguments, separated by spaces, on a line of
    their own. *)
Definition write_line (line : string) (fs : filesystem) : filesystem :=
  mkFS (dirs fs) (files fs) (stdout fs ++ [line]).

Definition print (args : list string) : M unit :=
  λ fs, (inr tt, write_line (String.concat " " args) fs).

(** [ensure_dirs()] *)
Definition ensure_dirs : M unit :=
  (makedirs DATA_RAW ;;; makedirs DATA_PROC)%py.

(** A name of the module is bound to a function of a credential that returns
    a frame, or to some other object. *)
Inductive global :=
  | Function (f : string → result DataFrame)
  | Other.

(** [name(arg)] for a global [name]. *)
Definition call_global (globals : list (string * global)) (name arg : string)
    : result DataFrame :=
  match List.find (λ g, String.eqb g.1 name) globals with
  | None => inl (NameError name)
  | Some (_, Function f) => f arg
  | Some (_, Other) => inl (TypeError "object is not callable")
  end.

(** The names the module binds at its top level. *)
Definition module_globals (w : World) : list (string * global) :=
  [ ("os", Other); ("dt", Other); ("load_dotenv", Other); ("pd", Other);
    ("yf", Other); ("Fred", Other); ("DATA_RAW", Other); ("DATA_PROC", Other);
    ("ensure_dirs", Other); ("get_universe", Other); ("download_prices", Other);
    ("compute_returns", Other); ("get_macro", Function (get_macro w));
    ("main", Other) ].

(** The objects [main] binds to its local names. *)
Inductive pyobj :=
  | VStr (s : string)
  | VStrs (l : list string)
  | VFrame (df : DataFrame).

Definition truthy (s : string) : bool := negb (String.eqb s "").

Definition nl : string := String (Ascii.ascii_of_nat 10) "".

Section Main.
Context (lib : Library) (globals : list (string * global)) (w : World).
Local Open Scope py_scope.

(** [main()].  Python returns [None]; the model returns the local names of
    [main] as they are bound when it ends.  The name [fetch_macro] is looked
    up in the globals when the call is reached; [macro] is bound in the first
    [if fred_key:] only. *)
Definition main : M (list (string * pyobj)) :=
  ensure_dirs ;;;
  let fred_key := default "" (environ w "FRED_API_KEY") in
  let tickers := get_universe in
  prices <- lift (download_prices w tickers default_start) ;;
  to_csv prices (DATA_RAW +:+ "/prices.csv") ;;;
  let rets := compute_returns (default_fill_method lib) prices in
  to_csv rets (DATA_PROC +:+ "/daily_returns.csv") ;;;
  macro <- (if truthy fred_key then
              macro <- lift (call_global globals "fetch_macro" fred_key) ;;
              to_csv macro (DATA_RAW +:+ "/macro.csv") ;;;
              ret (Some macro)
            else ret None) ;;
  let df := rets (* rets.copy() *) in
  df <- (if truthy fred_key then
           match macro with
           | Some macro => lift (join_ffill df macro)
           | None => raise (NameError "macro")
           end
         else ret df) ;;
  let mom30 := pct_change (default_fill_method lib) 30 prices in
  let mom90 := pct_change (default_fill_method lib) 90 prices in
  let vol30 := rolling_std lib 30 rets in
  let mom30 := set_columns (fmap (λ c, c +:+ "_mom30") (columns mom30)) mom30 in
  let mom90 := set_columns (fmap (λ c, c +:+ "_mom90") (columns mom90)) mom90 in
  let vol30 := set_columns (fmap (λ c, c +:+ "_vol30") (columns vol30)) vol30 in
  let features := dropna_all (concat_axis1 [mom30; mom90; vol30]) in
  let features := set_index_name "date" features in
  to_csv features (DATA_PROC +:+ "/features_basic.csv") ;;;
  print [ "✅ Data pipeline complete:";
          nl +:+ "  prices -> " +:+ DATA_RAW +:+ "/prices.csv";
          nl +:+ "  returns -> " +:+ DATA_PROC +:+ "/daily_returns.csv";
          nl +:+ "  features -> " +:+ DATA_PROC +:+ "/features_basic.csv";
          nl +:+ "  macro -> " +:+ DATA_RAW +:+ "/macro.csv (if key provided)" ] ;;;
  ret ([ ("fred_key", VStr fred_key); ("tickers", VStrs tickers);
         ("prices", VFrame prices); ("rets", VFrame rets) ]
       ++ match macro with Some m => [("macro", VFrame m)] | None => [] end
       ++ [ ("df", VFrame df); ("mom30", VFrame mom30); ("mom90", VFrame mom90);
            ("vol30", VFrame vol30); ("features", VFrame features) ]).
End Main.

(** The module as it is run: [main] resolves its names in [module_globals]. *)
Definition run (lib : Library) (w : World) : M (list (string * pyobj)) :=
  main lib (module_globals w) w.

(** ** Predicates of the statements and example inputs *)

Definition cell (rs : list row) (t j : nat) : option float64 :=
  r ← rs !! t; r.2 !! j.

Definition all_quoted (df : DataFrame) : Prop :=
  Forall (λ r : Z * list float64, forallb quoted r.2 = true) (rows df).

Definition aapl : DataFrame :=
  mkDF (Some "Date") ["AAPL"]
    [(1, [Fin 100]); (2, [Fin 102]); (3, [Fin 101]); (4, [Fin 105])].

(** An instrument listed one day after the other. *)
Definition late_listing : DataFrame :=
  mkDF (Some "Date") ["A"; "B"]
    [(1, [Fin 10; NaN]); (2, [Fin 11; Fin 20]); (3, [Fin 12; Fin 21])].

(** A price of zero followed by a price of five. *)
Definition after_zero : DataFrame :=
  mkDF (Some "Date") ["A"] [(1, [Fin 0]); (2, [Fin 5])].

(** Column [j] is missing above row [L] and present from row [L] on: the
    instrument is listed at row [L]. *)
Definition listed_from (df : DataFrame) (j L : nat) : Prop :=
  ∀ t x, iloc df t j = Some x → (x = NaN ↔ (t < L)%nat).

(** Thirty-one days of quoted prices of one instrument: 1, 2, ..., 31. *)
Definition ramp : DataFrame :=
  mkDF (Some "date") ["A"]
    ((λ i : nat, (Z.of_nat i + 1, [Fin (inject_Z (Z.of_nat i + 1))])) <$> seq 0 31).

(** A daily macro table over days 1 to 3 with a hole on day 2. *)
Definition macro_gaps : DataFrame :=
  mkDF (Some "date") ["fed_funds"] [(1, [Fin 5]); (2, [NaN]); (3, [Fin (21 # 4)])].

(** The spec's reading of a daily value: the last known observation of the
    indicator dated at or before [d]. *)
Definition spec_last_known_observation (obs : list (Z * float64)) (d : Z)
    : option float64 :=
  snd <$> last (List.filter (λ p : Z * float64, (p.1 <=? d) && notna p.2) obs).

(** One observation of the monthly indicators on day 1, and daily yields on
    days 1 and 2. *)
Definition fred_monthly_and_daily (key code : string) : result Series :=
  if String.eqb code "FEDFUNDS" then inr (mkSeries None None [(1, Fin 5)])
  else if String.eqb code "CPIAUCSL" then inr (mkSeries None None [(1, Fin 300)])
  else if String.eqb code "DGS10"
       then inr (mkSeries None None [(1, Fin 4); (2, Fin (41 # 10))])
  else inl (ProviderError "Bad Request.  The series does not exist.").

(** The response to a download of two tickers, [B] listed a day late. *)
Definition yf_two_tickers : Response :=
  mkResponse (Some "Date")
    (MultiIndex [("Close", "A"); ("Close", "B"); ("Volume", "A"); ("Volume", "B")])
    [(1, [Fin 10; NaN; Fin 1000; NaN]);
     (2, [Fin 11; Fin 20; Fin 1100; Fin 500]);
     (3, [Fin 12; Fin 21; Fin 1200; Fin 600])].

Definition world_with_key : World :=
  mkWorld (λ name, if String.eqb name "FRED_API_KEY" then Some "k" else None)
          (λ _ _, inr yf_two_tickers)
          fred_monthly_and_daily.

Definition world_without_key : World :=
  mkWorld (λ _, None) (λ _ _, inr yf_two_tickers) fred_monthly_and_daily.

(** One indicator observed on days 1 and 5. *)
Definition rate_days_1_5 : Series :=
  mkSeries None None [(1, Fin 5); (5, Fin (21 # 4))].

(** The columns of a response that hold the field [key]. *)
Definition field_mask (key : string) (c : column_index) : list bool :=
  match c with
  | FlatIndex ls => String.eqb key <$> ls
  | MultiIndex ks => (λ k : string * string, String.eqb key k.1) <$> ks
  end.

(** A response covers one instrument when it has one column of closing
    prices: the flat frame of a single ticker, or paired columns with one
    ticker under [Close]. *)
Definition covers_one_instrument (r : Response) : Prop :=
  length (List.filter id (field_mask "Close" (resp_columns r))) = 1%nat.

Definition resp_rectangular (r : Response) : Prop :=
  Forall (λ x : Z * list float64,
            length x.2 = length (field_mask "Close" (resp_columns r)))
         (resp_rows r).

(** The response to a download of the single ticker [AAPL]. *)
Definition yf_one_ticker : Response :=
  mkResponse (Some "Date") (MultiIndex [("Close", "AAPL"); ("Volume", "AAPL")])
    [(1, [Fin 100; Fin 9000]); (2, [Fin 102; Fin 8000])].

(** The flat response that older releases give for a single ticker. *)
Definition yf_one_ticker_flat : Response :=
  mkResponse (Some "Date") (FlatIndex ["Close"; "Volume"])
    [(1, [Fin 100; Fin 9000]); (2, [Fin 102; Fin 8000])].

Definition world_one_ticker (resp : Response) : World :=
  mkWorld (λ _, None) (λ _ _, inr resp) fred_monthly_and_daily.

(** The object bound to a local name, and the table stored at a path. *)
Definition binding (name : string) (locals : list (string * pyobj)) : option pyobj :=
  snd <$> List.find (λ b : string * pyobj, String.eqb b.1 name) locals.

Definition file_at (path : string) (fs : filesystem) : option DataFrame :=
  snd <$> List.find (λ f : string * DataFrame, String.eqb f.1 path) (files fs).

(** [df.rolling(window).std()] on a frame of fewer than [window] rows: no
    window is ever full, every cell is missing. *)
Definition rolling_std_short (window : nat) (df : DataFrame) : DataFrame :=
  with_rows df ((λ r : Z * list float64, (r.1, (λ _, NaN) <$> r.2)) <$> rows df).

(** pandas 2.x on short frames. *)
Definition pandas_2 : Library := mkLibrary Pad rolling_std_short.

Definition empty_fs : filesystem := mkFS [] [] [].

Definition prices_csv : string := "data/raw/prices.csv".
Definition returns_csv : string := "data/processed/daily_returns.csv".
Definition macro_csv : string := "data/raw/macro.csv".
Definition features_csv : string := "data/processed/features_basic.csv".

(** The prices that [download_prices] makes of [yf_two_tickers]. *)
Definition prices_two_tickers : DataFrame :=
  mkDF (Some "date") ["A"; "B"]
    [(1, [Fin 10; NaN]); (2, [Fin 11; Fin 20]); (3, [Fin 12; Fin 21])].

(** A credential is supplied and the macro provider is down. *)
Definition world_fred_down : World :=
  mkWorld (λ name, if String.eqb name "FRED_API_KEY" then Some "k" else None)
          (λ _ _, inr yf_two_tickers)
          (λ _ _, inl (ProviderError "Internal Server Error")).

(** Another indicator, observed on day 6 only. *)
Definition yield_day_6 : Series := mkSeries None None [(6, Fin 4)].



(** The dates of a series, and its observation dated [d] (the first one when
    the date repeats). *)
Definition dates (s : Series) : list Z := (sdata s).*1.

Definition observed (s : Series) (d : Z) : option float64 :=
  snd <$> List.find (λ p : Z * float64, p.1 =? d) (sdata s).

(** The union of the observation dates of the three indicators, sorted. *)
Definition observation_dates (s1 s2 s3 : Series) : list Z :=
  union_index [dates s1; dates s2; dates s3].

(** The frames that [get_macro] concatenates, from the three series. *)
Definition macro_frames (s1 s2 s3 : Series) : list DataFrame :=
  [to_frame (rename "fed_funds" s1); to_frame (rename "cpi" s2);
   to_frame (rename "treasury_10y" s3)].

(** Each indicator observed on a day of its own: 1, 3 and 6. *)
Definition fred_staggered (key code : string) : result Series :=
  if String.eqb code "FEDFUNDS" then inr (mkSeries None None [(3, Fin 5)])
  else if String.eqb code "CPIAUCSL" then inr (mkSeries None None [(1, Fin 300)])
  else if String.eqb code "DGS10" then inr (mkSeries None None [(6, Fin 4)])
  else inl (ProviderError "Bad Request.  The series does not exist.").

Definition world_staggered : World :=
  mkWorld (λ _, None) (λ _ _, inr yf_two_tickers) fred_staggered.



(** The three series as the provider returns them, each in increasing order
    of its dates. *)
Definition fetched (w : World) (fred_key : string) (s1 s2 s3 : Series) : Prop :=
  fred_get_series w fred_key "FEDFUNDS" = inr s1
  ∧ fred_get_series w fred_key "CPIAUCSL" = inr s2
  ∧ fred_get_series w fred_key "DGS10" = inr s3
  ∧ StronglySorted Z.lt (dates s1) ∧ StronglySorted Z.lt (dates s2)
  ∧ StronglySorted Z.lt (dates s3).

(** The row of the three indicators observed on the date [d]. *)
Definition observed_row (s1 s2 s3 : Series) (d : Z) : list float64 :=
  [default NaN (observed s1 d); default NaN (observed s2 d);
   default NaN (observed s3 d)].

Definition rate_day_3 : Series := mkSeries None None [(3, Fin 5)].
Definition cpi_day_1 : Series := mkSeries None None [(1, Fin 300)].

(** The provider fails on the second series only. *)
Definition fred_cpi_down (key code : string) : result Series :=
  if String.eqb code "CPIAUCSL" then inl (ProviderError "Internal Server Error")
  else inr rate_day_3.

Definition world_cpi_down : World :=
  mkWorld (λ _, None) (λ _ _, inr yf_two_tickers) fred_cpi_down.

(** The position, among the selected columns, of the column at position [i]:
    the number of selected columns before it. *)
Definition rank (mask : list bool) (i : nat) : nat :=
  length (List.filter id (take i mask)).

(** [resp.iloc[t, i]] *)
Definition resp_cell (r : Response) (t i : nat) : option float64 :=
  x ← resp_rows r !! t; x.2 !! i.

(** The file system after the [to_csv] calls of a run, in their order. *)
Definition write_all (ws : list (string * DataFrame)) (fs : filesystem) : filesystem :=
  foldl (λ fs (x : string * DataFrame), write_csv x.2 x.1 fs) fs ws.

(** The line that [main] prints when it ends. *)
Definition completion_line : string :=
  String.concat " "
    [ "✅ Data pipeline complete:";
      nl +:+ "  prices -> " +:+ DATA_RAW +:+ "/prices.csv";
      nl +:+ "  returns -> " +:+ DATA_PROC +:+ "/daily_returns.csv";
      nl +:+ "  features -> " +:+ DATA_PROC +:+ "/features_basic.csv";
      nl +:+ "  macro -> " +:+ DATA_RAW +:+ "/macro.csv (if key provided)" ].

(** The world [w] with another macro provider. *)
Definition with_fred (w : World) (fred : string → string → result Series) : World :=
  mkWorld (environ w) (yf_download w) fred.

(** The price provider is down. *)
Definition world_yf_down : World :=
  mkWorld (λ _, None) (λ _ _, inl (ProviderError "No data found"))
          fred_monthly_and_daily.

(** * Properties *)

(** ** Cells *)

Lemma isna_true x : isna x = true ↔ x = NaN.
Proof. destruct x; simpl; split; congruence. Qed.

Lemma notna_true x : notna x = true ↔ x ≠ NaN.
Proof. destruct x; cbn; naive_solver. Qed.

Lemma pct_nan_r x : pct x NaN = NaN.
Proof. by destruct x. Qed.

(** The percent change between two quoted prices is defined. *)
Lemma pct_quoted x y : quoted x = true → quoted y = true → notna (pct x y) = true.
Proof.
  destruct x as [| |p], y as [| |q]; simpl; try done.
  intros _ Hq. unfold pct, fdiv. by destruct (Qzero q).
Qed.

Lemma quoted_notna x : quoted x = true → x ≠ NaN.
Proof. by destruct x. Qed.

(** ** Cells of a list of rows *)

Lemma iloc_cell df t j : iloc df t j = cell (rows df) t j.
Proof. done. Qed.

(** ** Lists *)

Lemma filter_all {A} (f : A → bool) (l : list A) :
  Forall (λ x, f x = true) l → List.filter f l = l.
Proof.
  induction 1 as [|x l Hx _ IH]; [done|]. simpl. by rewrite Hx, IH.
Qed.

Lemma length_filter_fmap {A} (f : A → bool) (l : list A) :
  length (List.filter f l) = length (List.filter id (f <$> l)).
Proof.
  induction l as [|x l IH]; [done|]. simpl. unfold id at 1.
  destruct (f x); simpl; by rewrite IH.
Qed.

Lemma find_filter_other {A} (p q : A → bool) (l : list A) :
  (∀ x, p x = true → q x = true) →
  List.find p (List.filter q l) = List.find p l.
Proof.
  intros Hpq. induction l as [|x l IH]; [done|]. simpl.
  destruct (q x) eqn:Hq; simpl.
  - by rewrite IH.
  - destruct (p x) eqn:Hp; [|done]. apply Hpq in Hp. congruence.
Qed.

Lemma find_filter_none {A} (p q : A → bool) (l : list A) :
  (∀ x, p x = true → q x = false) →
  List.find p (List.filter q l) = None.
Proof.
  intros Hpq. induction l as [|x l IH]; [done|]. simpl.
  destruct (q x) eqn:Hq; simpl; [|done].
  destruct (p x) eqn:Hp; [|done]. apply Hpq in Hp. congruence.
Qed.

Lemma find_app {A} (p : A → bool) (l1 l2 : list A) :
  List.find p (l1 ++ l2)
  = match List.find p l1 with Some x => Some x | None => List.find p l2 end.
Proof. induction l1 as [|x l1 IH]; [done|]. simpl. by destruct (p x). Qed.


Lemma filter_fmap {A B} (f : B → bool) (g : A → B) (l : list A) :
  List.filter f (g <$> l) = g <$> List.filter (λ x, f (g x)) l.
Proof.
  induction l as [|x l IH]; [done|]. rewrite fmap_cons. simpl.
  rewrite IH. by destruct (f (g x)).
Qed.


Lemma head_seqZ lo n : 0 < n → head (seqZ lo n) = Some lo.
Proof. intros Hn. by rewrite seqZ_cons. Qed.

Lemma last_seqZ lo n : 0 < n → last (seqZ lo n) = Some (lo + n - 1).
Proof.
  intros Hn. replace n with (Z.of_nat (S (Z.to_nat (n - 1)))) at 1 by lia.
  rewrite seqZ_S, last_snoc. f_equal. lia.
Qed.

(** ** Forward fill *)

Lemma length_fill_row prev cur : length (fill_row prev cur) = length cur.
Proof. revert prev. induction cur; intros; simpl; auto. Qed.

Lemma lookup_fill_row prev cur j :
  fill_row prev cur !! j
  = (λ c, if isna c then default NaN (prev !! j) else c) <$> cur !! j.
Proof.
  revert prev j. induction cur as [|c cur IH]; intros prev j; [done|].
  destruct j as [|j]; simpl.
  - by destruct prev.
  - rewrite IH. by destruct prev.
Qed.

Lemma fill_row_nil cur : fill_row [] cur = cur.
Proof.
  induction cur as [|c cur IH]; [done|]. simpl. rewrite IH.
  by destruct c.
Qed.

(** A row without a missing cell is left as it is. *)
Lemma fill_row_complete prev cur :
  forallb notna cur = true → fill_row prev cur = cur.
Proof.
  revert prev. induction cur as [|c cur IH]; intros prev H; [done|].
  simpl in *. apply andb_prop in H as [Hc H]. rewrite IH by done.
  by destruct c.
Qed.

Lemma fill_row_app p1 p2 c1 c2 :
  length p1 = length c1 →
  fill_row (p1 ++ p2) (c1 ++ c2) = fill_row p1 c1 ++ fill_row p2 c2.
Proof.
  revert p1. induction c1 as [|c c1 IH]; intros [|p p1] Hlen; simplify_eq/=; [done|].
  by rewrite IH.
Qed.

Lemma fill_row_twice prev cur :
  fill_row prev (fill_row prev cur) = fill_row prev cur.
Proof.
  apply list_eq. intros j. rewrite !lookup_fill_row.
  destruct (cur !! j) as [c|]; simpl; [|done].
  by destruct c; simpl; destruct (prev !! j) as [[]|].
Qed.

Lemma length_ffill_from prev rs : length (ffill_from prev rs) = length rs.
Proof.
  revert prev. induction rs as [|[d vs] rs IH]; intros; simpl; auto.
Qed.

Lemma index_ffill_from prev rs : fmap fst (ffill_from prev rs) = fmap fst rs.
Proof.
  revert prev. induction rs as [|[d vs] rs IH]; intros; simpl; [done|].
  by rewrite IH.
Qed.

Lemma cell_ffill_from_0 prev r rs j :
  cell (ffill_from prev (r :: rs)) 0 j
  = (λ c, if isna c then default NaN (prev !! j) else c) <$> r.2 !! j.
Proof. destruct r as [d vs]. unfold cell. simpl. apply lookup_fill_row. Qed.

Lemma cell_ffill_from_S prev r rs t j :
  cell (ffill_from prev (r :: rs)) (S t) j
  = cell (ffill_from (fill_row prev r.2) rs) t j.
Proof. by destruct r. Qed.

(** Rows without a missing cell are left as they are. *)
Lemma ffill_from_complete prev rs :
  Forall (λ r, row_complete r = true) rs → ffill_from prev rs = rs.
Proof.
  revert prev. induction rs as [|[d vs] rs IH]; intros prev H; [done|].
  inversion_clear H as [|?? Hr Hrs]. simpl.
  unfold row_complete in Hr. simpl in Hr.
  by rewrite (fill_row_complete _ _ Hr), IH.
Qed.

Lemma lookup_ffill_from prev rs t :
  ∃ p, ffill_from prev rs !! t = (λ r : row, (r.1, fill_row p r.2)) <$> rs !! t.
Proof.
  revert prev t. induction rs as [|[d vs] rs IH]; intros prev t.
  - by exists [].
  - destruct t as [|t]; simpl; [by exists prev|]. apply IH.
Qed.

Lemma rectangular_ffill df : rectangular df → rectangular (ffill df).
Proof.
  unfold rectangular, width. rewrite !Forall_lookup. intros H t r Hr.
  destruct (lookup_ffill_from [] (rows df) t) as [p Hp].
  change (rows (ffill df)) with (ffill_from [] (rows df)) in Hr. rewrite Hp in Hr.
  destruct (rows df !! t) as [r0|] eqn:E; simplify_eq/=.
  rewrite length_fill_row. eauto.
Qed.

Lemma ffill_complete df :
  Forall (λ r, row_complete r = true) (rows df) → ffill df = df.
Proof.
  intros H. destruct df as [n c rs]. unfold ffill, with_rows. simpl in *.
  by rewrite ffill_from_complete.
Qed.

(** ** Percent change *)

Lemma width_fill_data fm df : width (fill_data fm df) = width df.
Proof. by destruct fm. Qed.

Lemma length_rows_fill_data fm df :
  length (rows (fill_data fm df)) = length (rows df).
Proof. destruct fm; simpl; [apply length_ffill_from|done]. Qed.

Lemma index_fill_data fm df : index (fill_data fm df) = index df.
Proof. destruct fm; simpl; [apply index_ffill_from|done]. Qed.

Lemma rectangular_fill_data fm df : rectangular df → rectangular (fill_data fm df).
Proof. destruct fm; [apply rectangular_ffill|done]. Qed.

(** Without missing cells there is nothing to pad. *)
Lemma fill_data_complete fm df :
  Forall (λ r, row_complete r = true) (rows df) → fill_data fm df = df.
Proof. destruct fm; [apply ffill_complete|done]. Qed.

Lemma fmap_sub_zip_div a b :
  (λ x, fsub x (Fin 1)) <$> zip_with fdiv a b = zip_with pct a b.
Proof. revert b. induction a; intros [|]; simpl; f_equal; auto. Qed.

(** The rows of [pct_change]: each row of the data against the row [periods]
    places above it, or against missing cells. *)
Lemma rows_pct_change fm k df :
  rows (pct_change fm k df)
  = zip_with (λ (r : row) prev, (r.1, zip_with pct r.2 prev))
      (rows (fill_data fm df))
      (replicate k (nan_row (fill_data fm df)) ++ values (fill_data fm df)).
Proof.
  unfold pct_change, frame_sub_scalar, frame_div, shift. simpl.
  generalize (replicate k (nan_row (fill_data fm df)) ++ values (fill_data fm df)).
  induction (rows (fill_data fm df)) as [|r rs IH]; intros [|p ps]; simpl; [done..|].
  by rewrite IH, fmap_sub_zip_div.
Qed.

Lemma columns_pct_change fm k df : columns (pct_change fm k df) = columns df.
Proof. by destruct fm. Qed.

Lemma lookup_rows_pct_change fm k df t :
  rows (pct_change fm k df) !! t
  = r ← rows (fill_data fm df) !! t;
    prev ← (replicate k (nan_row (fill_data fm df)) ++ values (fill_data fm df)) !! t;
    Some (r.1, zip_with pct r.2 prev).
Proof. rewrite rows_pct_change. apply lookup_zip_with. Qed.

Lemma length_rows_pct_change fm k df :
  length (rows (pct_change fm k df)) = length (rows df).
Proof.
  rewrite rows_pct_change, length_zip_with, length_app, length_replicate.
  unfold values. rewrite length_fmap, length_rows_fill_data. lia.
Qed.

Lemma index_pct_change fm k df : index (pct_change fm k df) = index df.
Proof.
  rewrite <- (index_fill_data fm df). unfold index. apply list_eq. intros t.
  rewrite !list_lookup_fmap, lookup_rows_pct_change.
  destruct (rows (fill_data fm df) !! t) as [r|] eqn:Hr; simpl; [|done].
  destruct ((_ ++ _) !! t) as [prev|] eqn:Hp; simpl; [done|].
  apply lookup_ge_None in Hp. apply lookup_lt_Some in Hr.
  rewrite length_app in Hp. unfold values in Hp. rewrite length_fmap in Hp. lia.
Qed.

(** The rows above [periods]: every cell is missing. *)
Lemma lookup_rows_pct_change_lt fm k df t :
  (t < k)%nat →
  rows (pct_change fm k df) !! t
  = (λ r : row, (r.1, zip_with pct r.2 (replicate (width df) NaN)))
      <$> rows (fill_data fm df) !! t.
Proof.
  intros Ht. rewrite lookup_rows_pct_change.
  rewrite lookup_app_l by (rewrite length_replicate; lia).
  rewrite lookup_replicate_2 by done.
  unfold nan_row. rewrite width_fill_data. by destruct (_ !! t).
Qed.

(** The rows from [periods] on: each cell against the cell [periods] above. *)
Lemma lookup_rows_pct_change_ge fm k df t :
  (k ≤ t)%nat →
  rows (pct_change fm k df) !! t
  = r ← rows (fill_data fm df) !! t;
    prev ← rows (fill_data fm df) !! (t - k)%nat;
    Some (r.1, zip_with pct r.2 prev.2).
Proof.
  intros Ht. rewrite lookup_rows_pct_change.
  rewrite lookup_app_r by (rewrite length_replicate; lia).
  rewrite length_replicate. unfold values. rewrite list_lookup_fmap.
  destruct (_ !! t); simpl; [|done]. by destruct (_ !! (t - k)%nat).
Qed.

Lemma zip_with_pct_nan vs n :
  zip_with pct vs (replicate n NaN) = replicate (length vs `min` n) NaN.
Proof.
  revert n. induction vs as [|v vs IH]; intros [|n]; simpl; [done..|].
  by rewrite IH, pct_nan_r.
Qed.

Lemma rectangular_pct_change fm k df :
  rectangular df → rectangular (pct_change fm k df).
Proof.
  intros H. apply (rectangular_fill_data fm) in H.
  unfold rectangular in *. rewrite Forall_lookup in *. intros t r Hr.
  unfold width in *. rewrite columns_pct_change.
  rewrite lookup_rows_pct_change in Hr.
  destruct (rows (fill_data fm df) !! t) as [r0|] eqn:E0; simplify_eq/=.
  destruct ((_ ++ _) !! t) as [prev|] eqn:Ep; simplify_eq/=.
  pose proof (H _ _ E0) as H0. rewrite length_zip_with.
  assert (length prev = length (columns df)) as ->; [|destruct fm; simpl in *; lia].
  apply lookup_app_Some in Ep as [Ep|[_ Ep]].
  - apply lookup_replicate in Ep as [-> _]. unfold nan_row, width.
    rewrite length_replicate. by destruct fm.
  - unfold values in Ep. rewrite list_lookup_fmap in Ep.
    apply fmap_Some in Ep as (r1 & E1 & ->).
    rewrite (H _ _ E1). by destruct fm.
Qed.

(** ** Returns *)

Lemma rows_compute_returns fm prices :
  rows (compute_returns fm prices)
  = List.filter row_complete (rows (pct_change fm 1 prices)).
Proof. done. Qed.

Lemma columns_compute_returns fm prices :
  columns (compute_returns fm prices) = columns prices.
Proof. by destruct fm. Qed.

Lemma row_complete_spec (r : Z * list float64) :
  row_complete r = true ↔ Forall (λ x, x ≠ NaN) r.2.
Proof.
  unfold row_complete. rewrite forallb_forall, Forall_forall.
  setoid_rewrite <- list_elem_of_In. by setoid_rewrite notna_true.
Qed.

Lemma rows_compute_returns_complete fm prices :
  Forall (λ r, row_complete r = true) (rows (compute_returns fm prices)).
Proof.
  rewrite rows_compute_returns, Forall_forall. intros r Hr.
  apply list_elem_of_In, filter_In in Hr. tauto.
Qed.

Lemma rectangular_dropna df : rectangular df → rectangular (dropna df).
Proof.
  unfold rectangular. rewrite !Forall_forall. intros H r Hr.
  apply list_elem_of_In, filter_In in Hr as [Hr _]. apply H. by apply list_elem_of_In.
Qed.

Lemma rectangular_compute_returns fm prices :
  rectangular prices → rectangular (compute_returns fm prices).
Proof.
  intros H. apply (rectangular_pct_change fm 1), rectangular_dropna in H.
  exact H.
Qed.

(** C10. For every price matrix, the return matrix of [compute_returns] holds
    no missing ([NaN]) cell: it keeps exactly the rows of the percent
    changes in which every cell is defined, so a row with a missing return
    for one instrument is dropped as a whole, and every cell of a kept row is
    defined. *)
Theorem compute_returns_no_missing_cell (fm : fill_method) (prices : DataFrame) :
  rows (compute_returns fm prices)
    = List.filter row_complete (rows (pct_change fm 1 prices))
  ∧ (∀ r, r ∈ rows (compute_returns fm prices)
          ↔ r ∈ rows (pct_change fm 1 prices) ∧ Forall (λ x, x ≠ NaN) r.2)
  ∧ (∀ t j x, iloc (compute_returns fm prices) t j = Some x → x ≠ NaN)
  ∧ (rectangular prices → rectangular (compute_returns fm prices)).
Proof.
  split; [done|]. split; [|split; [|apply rectangular_compute_returns]].
  - intros r. rewrite rows_compute_returns, !list_elem_of_In, filter_In.
    by rewrite row_complete_spec.
  - intros t j x Hx. unfold iloc in Hx.
    destruct (rows (compute_returns fm prices) !! t) as [r|] eqn:Hr; simplify_eq/=.
    pose proof (rows_compute_returns_complete fm prices) as Hall.
    rewrite Forall_lookup in Hall. apply Hall in Hr.
    apply row_complete_spec in Hr. rewrite Forall_lookup in Hr. eauto.
Qed.

(** The cells of [pct_change] from row [periods] on. *)
Lemma iloc_pct_change_ge fm k df t j :
  (k ≤ t)%nat →
  iloc (pct_change fm k df) t j
  = x ← iloc (fill_data fm df) t j;
    y ← iloc (fill_data fm df) (t - k) j;
    Some (pct x y).
Proof.
  intros Ht. unfold iloc. rewrite lookup_rows_pct_change_ge by done.
  destruct (rows (fill_data fm df) !! t) as [r|]; simpl; [|done].
  destruct (rows (fill_data fm df) !! (t - k)%nat) as [prev|]; simpl.
  - rewrite lookup_zip_with. by destruct (r.2 !! j).
  - by destruct (r.2 !! j).
Qed.

Lemma iloc_pct_change_lt_Some fm k df t j :
  rectangular df → (t < k)%nat → (t < length (rows df))%nat → (j < width df)%nat →
  iloc (pct_change fm k df) t j = Some NaN.
Proof.
  intros Hrect Ht HT Hj. unfold iloc. rewrite lookup_rows_pct_change_lt by done.
  rewrite <- (length_rows_fill_data fm) in HT.
  apply lookup_lt_is_Some in HT as [r Hr]. rewrite Hr. simpl.
  apply (rectangular_fill_data fm) in Hrect.
  unfold rectangular in Hrect. rewrite Forall_lookup in Hrect.
  rewrite zip_with_pct_nan, (Hrect _ _ Hr), width_fill_data.
  apply lookup_replicate_2. lia.
Qed.

(** The first row of the percent changes over one period is never complete. *)
Lemma filter_rows_pct_change_1 fm df :
  rectangular df → columns df ≠ [] →
  List.filter row_complete (rows (pct_change fm 1 df))
  = List.filter row_complete (drop 1 (rows (pct_change fm 1 df))).
Proof.
  intros Hrect Hcols.
  destruct (rows (pct_change fm 1 df)) as [|r rs] eqn:E; [done|].
  simpl. rewrite drop_0.
  assert (rows (pct_change fm 1 df) !! 0%nat = Some r) as H0 by (by rewrite E).
  rewrite lookup_rows_pct_change_lt in H0 by lia.
  destruct (rows (fill_data fm df) !! 0%nat) as [r0|] eqn:E0; simplify_eq/=.
  apply (rectangular_fill_data fm) in Hrect.
  unfold rectangular in Hrect. rewrite Forall_lookup in Hrect.
  unfold row_complete. simpl.
  rewrite zip_with_pct_nan, (Hrect _ _ E0), width_fill_data.
  unfold width. destruct (columns df); [done|]. by simpl.
Qed.

Lemma all_quoted_complete df :
  all_quoted df → Forall (λ r, row_complete r = true) (rows df).
Proof.
  intros H. eapply Forall_impl; [exact H|]. intros r. unfold row_complete.
  rewrite !forallb_forall. intros Hr x Hx. apply notna_true, quoted_notna. auto.
Qed.

Lemma zip_with_pct_quoted xs ys :
  forallb quoted xs = true → forallb quoted ys = true →
  forallb notna (zip_with pct xs ys) = true.
Proof.
  revert ys. induction xs as [|x xs IH]; intros [|y ys]; simpl; try done.
  intros [Hx Hxs]%andb_prop [Hy Hys]%andb_prop.
  by rewrite pct_quoted, IH.
Qed.

(** With every price quoted, every row of the percent changes below the first
    is complete. *)
Lemma pct_change_quoted_complete fm df :
  all_quoted df →
  Forall (λ r, row_complete r = true) (drop 1 (rows (pct_change fm 1 df))).
Proof.
  intros Hq. rewrite Forall_lookup. intros t r. rewrite lookup_drop.
  rewrite lookup_rows_pct_change_ge by lia.
  rewrite (fill_data_complete fm df) by by apply all_quoted_complete.
  unfold all_quoted in Hq. rewrite Forall_lookup in Hq.
  destruct (rows df !! (1 + t)%nat) as [r1|] eqn:E1; simpl; [|done].
  destruct (rows df !! (t - 0)%nat) as [r0|] eqn:E0; simpl; [|done].
  intros [= <-]. unfold row_complete. simpl.
  apply zip_with_pct_quoted; eauto.
Qed.

(** X21. What [compute_returns] does on every price matrix with one cell per
    column in each row and at least one column: it keeps the columns and returns
    exactly the rows below the first whose percent changes are all defined;
    each cell of the percent changes is [P[t]/P[t-1] - 1] on the prices as
    [pct_change] pads them, so a predecessor that is missing there gives a
    missing cell, and the row that holds it is dropped as a whole.  When
    every price is present, finite and not zero, these are the [T-1] rows
    below the first, at their dates, and each cell is [P[t]/P[t-1] - 1]: on
    such matrices the leading row is the only one dropped. *)
Theorem compute_returns_rows (fm : fill_method) (prices : DataFrame) :
  rectangular prices → columns prices ≠ [] →
  columns (compute_returns fm prices) = columns prices
  ∧ rows (compute_returns fm prices)
      = List.filter row_complete (drop 1 (rows (pct_change fm 1 prices)))
  ∧ (∀ t j, iloc (pct_change fm 1 prices) (S t) j
            = x ← iloc (fill_data fm prices) (S t) j;
              y ← iloc (fill_data fm prices) t j;
              Some (pct x y))
  ∧ (∀ t j x, iloc (fill_data fm prices) (S t) j = Some x →
              iloc (fill_data fm prices) t j = Some NaN →
              iloc (pct_change fm 1 prices) (S t) j = Some NaN)
  ∧ (all_quoted prices →
       index (compute_returns fm prices) = drop 1 (index prices)
       ∧ length (rows (compute_returns fm prices)) = (length (rows prices) - 1)%nat
       ∧ ∀ t j, iloc (compute_returns fm prices) t j
                = x ← iloc prices (S t) j; y ← iloc prices t j; Some (pct x y)).
Proof.
  intros Hrect Hcols.
  assert (∀ t j, iloc (pct_change fm 1 prices) (S t) j
            = x ← iloc (fill_data fm prices) (S t) j;
              y ← iloc (fill_data fm prices) t j;
              Some (pct x y)) as Hcell.
  { intros t j. rewrite iloc_pct_change_ge by lia.
    by replace (S t - 1)%nat with t by lia. }
  split; [apply columns_compute_returns|].
  split; [by rewrite rows_compute_returns, filter_rows_pct_change_1|].
  split; [done|]. split.
  { intros t j x Hx Hy. rewrite Hcell, Hx, Hy. simpl. by rewrite pct_nan_r. }
  intros Hq.
  assert (rows (compute_returns fm prices) = drop 1 (rows (pct_change fm 1 prices)))
    as Hrows.
  { rewrite rows_compute_returns, filter_rows_pct_change_1 by done.
    by apply filter_all, pct_change_quoted_complete. }
  split; [|split].
  - unfold index at 1. rewrite Hrows, fmap_drop.
    by rewrite <- (index_pct_change fm 1 prices).
  - by rewrite Hrows, length_drop, length_rows_pct_change.
  - intros t j. unfold iloc at 1. rewrite Hrows, lookup_drop.
    change (iloc (pct_change fm 1 prices) (1 + t) j = x ← iloc prices (S t) j; y ← iloc prices t j; Some (pct x y)).
    rewrite Hcell. by rewrite fill_data_complete by by apply all_quoted_complete.
Qed.

Lemma compute_returns_rows_witness :
  rectangular aapl ∧ columns aapl ≠ [] ∧ all_quoted aapl
  ∧ index (compute_returns Pad aapl) = [2; 3; 4]
  ∧ length (rows (compute_returns Pad aapl)) = 3%nat
  ∧ iloc (compute_returns Pad aapl) 0 0 = Some (pct (Fin 102) (Fin 100)).
Proof.
  assert (rectangular aapl) as Hr by (repeat constructor).
  assert (columns aapl ≠ []) as Hc by done.
  assert (all_quoted aapl) as Hq by (repeat constructor).
  destruct (compute_returns_rows Pad aapl Hr Hc) as (_ & _ & _ & _ & Hall).
  destruct (Hall Hq) as (Hix & Hlen & Hcell).
  split; [done|]. split; [done|]. split; [done|].
  split; [exact Hix|]. split; [exact Hlen|]. exact (Hcell 0%nat 0%nat).
Defined.

(** C1, where the code departs from it.  Instrument [B] is listed a day after
    [A]: of the [T = 3] rows of prices, [compute_returns] returns one row,
    not [T - 1 = 2].  On day 2 the return of [A] is defined and the return of
    [B], which has no predecessor, is missing; [dropna()] drops that row as a
    whole, where only the leading row was to be dropped and the cell of [B]
    left undefined.  A price after a zero price has an infinite return, which
    is kept. *)
Theorem compute_returns_drops_partial_row :
  rectangular late_listing
  ∧ length (rows late_listing) = 3%nat
  ∧ rows (compute_returns Pad late_listing) = [(3, [Fin (1 # 11); Fin (1 # 20)])]
  ∧ rows (compute_returns NoFill late_listing) = [(3, [Fin (1 # 11); Fin (1 # 20)])]
  ∧ iloc (pct_change Pad 1 late_listing) 1 0 = Some (Fin (1 # 10))
  ∧ iloc (pct_change Pad 1 late_listing) 1 1 = Some NaN
  ∧ rows (compute_returns Pad after_zero) = [(2, [Inf false])]
  ∧ rows (compute_returns NoFill after_zero) = [(2, [Inf false])].
Proof. split; [repeat constructor|]. by vm_compute. Qed.

(** ** Momentum *)

Lemma cell_ffill_from_listed rs prev j L :
  (∀ t x, cell rs t j = Some x → (x = NaN ↔ (t < L)%nat)) →
  ((0 < L)%nat → default NaN (prev !! j) = NaN) →
  ∀ t, cell (ffill_from prev rs) t j = cell rs t j.
Proof.
  revert prev L. induction rs as [|r rs IH]; intros prev L Hcol Hprev t; [done|].
  destruct t as [|t].
  - rewrite cell_ffill_from_0. unfold cell. simpl.
    destruct (r.2 !! j) as [c|] eqn:Ec; simpl; [|done].
    destruct (isna c) eqn:Hna; [|done]. apply isna_true in Hna as ->.
    f_equal. apply Hprev. apply (Hcol 0%nat NaN); [|done].
    unfold cell. simpl. by rewrite Ec.
  - rewrite cell_ffill_from_S. apply (IH _ (pred L)).
    + intros t' x Hx. specialize (Hcol (S t') x Hx). rewrite Hcol. lia.
    + intros HL. rewrite lookup_fill_row.
      destruct (r.2 !! j) as [c|] eqn:Ec; simpl; [|done].
      assert (c = NaN) as ->.
      { apply (Hcol 0%nat c); [|lia]. unfold cell. simpl. by rewrite Ec. }
      simpl. apply Hprev. lia.
Qed.

(** Padding changes nothing in the column of an instrument that has no gap
    after its listing. *)
Lemma iloc_fill_data_listed fm df j L t :
  listed_from df j L → iloc (fill_data fm df) t j = iloc df t j.
Proof.
  intros H. destruct fm; [|done].
  apply (cell_ffill_from_listed (rows df) [] j L); [exact H|done].
Qed.

Lemma iloc_is_Some df t j :
  rectangular df → (t < length (rows df))%nat → (j < width df)%nat →
  is_Some (iloc df t j).
Proof.
  intros Hrect Ht Hj. unfold iloc.
  apply lookup_lt_is_Some in Ht as [r Hr]. rewrite Hr. simpl.
  unfold rectangular in Hrect. rewrite Forall_lookup in Hrect.
  apply lookup_lt_is_Some. by rewrite (Hrect _ _ Hr).
Qed.

(** C3, as amended. For every price matrix and instrument, [momentum_30] at
    row [t] is missing for each of the first 30 rows, and from row 30 on it is
    [P[t]/P[t-30] - 1] on the (padded) prices.  For an instrument listed at
    row [L] and without a gap after it, the cell is missing whenever fewer
    than 30 observed prices precede row [t] (that is for [t < L + 30]: the
    first 30 rows, not 29, of the observed history) and equals
    [Price[t]/Price[t-30] - 1] otherwise, which is defined when both prices
    are finite and not zero. *)
Theorem momentum_30_cells (fm : fill_method) (prices : DataFrame) (j : nat) :
  rectangular prices → (j < width prices)%nat →
  let mom30 := pct_change fm 30 prices in
  (∀ t, (t < 30)%nat → (t < length (rows prices))%nat → iloc mom30 t j = Some NaN)
  ∧ (∀ t, (30 ≤ t)%nat →
          iloc mom30 t j
          = x ← iloc (fill_data fm prices) t j;
            y ← iloc (fill_data fm prices) (t - 30) j;
            Some (pct x y))
  ∧ (∀ L, listed_from prices j L →
       (∀ t, (t < length (rows prices))%nat → (t < L + 30)%nat →
             iloc mom30 t j = Some NaN)
       ∧ (∀ t, (L + 30 ≤ t)%nat →
               iloc mom30 t j
               = x ← iloc prices t j; y ← iloc prices (t - 30) j; Some (pct x y))
       ∧ (∀ t x y, (L + 30 ≤ t)%nat →
               iloc prices t j = Some x → iloc prices (t - 30) j = Some y →
               quoted x = true → quoted y = true →
               ∃ v, iloc mom30 t j = Some v ∧ v ≠ NaN)).
Proof.
  intros Hrect Hj mom30.
  assert (∀ t, (30 ≤ t)%nat →
          iloc mom30 t j
          = x ← iloc (fill_data fm prices) t j;
            y ← iloc (fill_data fm prices) (t - 30) j;
            Some (pct x y)) as Hge.
  { intros t Ht. by apply iloc_pct_change_ge. }
  assert (∀ t, (t < 30)%nat → (t < length (rows prices))%nat →
               iloc mom30 t j = Some NaN) as Hlt.
  { intros t Ht HT. by apply iloc_pct_change_lt_Some. }
  split; [done|]. split; [done|].
  intros L HL.
  assert (∀ t, (30 ≤ t)%nat →
               iloc mom30 t j
               = x ← iloc prices t j; y ← iloc prices (t - 30) j; Some (pct x y))
    as Hge'.
  { intros t Ht. rewrite Hge by done.
    by rewrite !(iloc_fill_data_listed fm prices j L). }
  split; [|split].
  - intros t HT Ht. destruct (decide (t < 30)%nat) as [|Hn]; [by apply Hlt|].
    rewrite Hge' by lia.
    destruct (iloc_is_Some prices t j) as [x Hx]; [done..|].
    destruct (iloc_is_Some prices (t - 30) j) as [y Hy]; [done|lia|done|].
    rewrite Hx, Hy. simpl.
    assert (y = NaN) as -> by (apply (HL _ _ Hy); lia).
    by rewrite pct_nan_r.
  - intros t Ht. apply Hge'. lia.
  - intros t x y Ht Hx Hy Qx Qy. exists (pct x y). split.
    + rewrite Hge' by lia. by rewrite Hx, Hy.
    + by apply notna_true, pct_quoted.
Qed.

Lemma listed_from_ramp : listed_from ramp 0 0.
Proof.
  intros t x. unfold iloc, ramp. cbn [rows]. rewrite list_lookup_fmap.
  destruct (seq 0 31 !! t); simpl; [|done]. intros [= <-]. split; [done|lia].
Defined.

Lemma rectangular_ramp : rectangular ramp.
Proof.
  unfold rectangular, ramp. cbn [rows]. apply Forall_fmap, Forall_forall. by intros.
Defined.

Lemma momentum_30_cells_witness :
  rectangular ramp ∧ (0 < width ramp)%nat ∧ listed_from ramp 0 0
  ∧ iloc (pct_change Pad 30 ramp) 29 0 = Some NaN
  ∧ iloc (pct_change Pad 30 ramp) 30 0 = Some (pct (Fin 31) (Fin 1)).
Proof.
  assert (0 < width ramp)%nat as Hj by (unfold width; simpl; lia).
  destruct (momentum_30_cells Pad ramp 0 rectangular_ramp Hj) as (_ & _ & HL).
  destruct (HL 0%nat listed_from_ramp) as (Hlt & Hge & _).
  split; [exact rectangular_ramp|]. split; [exact Hj|].
  split; [exact listed_from_ramp|]. split.
  - apply Hlt; [vm_compute|]; lia.
  - rewrite Hge by lia. reflexivity.
Defined.

(** C3 as stated fails in its last clause: with 31 quoted prices, the 30th
    row of the observed history (index 29) still has no momentum; the first
    row that has one is the 31st (index 30). *)
Lemma momentum_30_cex :
  length (rows ramp) = 31%nat
  ∧ iloc ramp 29 0 = Some (Fin 30)
  ∧ iloc (pct_change Pad 30 ramp) 29 0 = Some NaN
  ∧ iloc (pct_change NoFill 30 ramp) 29 0 = Some NaN
  ∧ iloc (pct_change Pad 30 ramp) 30 0 = Some (Fin (30 # 1))
  ∧ iloc (pct_change NoFill 30 ramp) 30 0 = Some (Fin (30 # 1)).
Proof. by vm_compute. Qed.

(** ** The joined dataset *)

Lemma fill_row_join p1 p2 c1 c2 :
  length p1 = length c1 → forallb notna c1 = true →
  fill_row (p1 ++ p2) (c1 ++ c2) = c1 ++ fill_row p2 c2.
Proof.
  intros Hlen Hc. by rewrite fill_row_app, (fill_row_complete _ _ Hc) by done.
Qed.

(** Forward fill over rows that are complete on their first [w] cells: those
    cells stay, and the rest is filled on its own. *)
Lemma ffill_from_join (w : nat) (m : Z → list float64) rs p1 p2 :
  Forall (λ r : Z * list float64, length r.2 = w ∧ row_complete r = true) rs →
  length p1 = w →
  ffill_from (p1 ++ p2) ((λ r : Z * list float64, (r.1, r.2 ++ m r.1)) <$> rs)
  = zip_with (λ (r mr : Z * list float64), (r.1, r.2 ++ mr.2)) rs
      (ffill_from p2 ((λ r : Z * list float64, (r.1, m r.1)) <$> rs)).
Proof.
  intros Hrs. revert p1 p2.
  induction Hrs as [|[d c] rs [Hlen Hc] _ IH]; intros p1 p2 Hp; [done|].
  simpl in *. rewrite fill_row_join by (done || congruence).
  by rewrite IH.
Qed.

Lemma ffill_from_join_nil (w : nat) (m : Z → list float64) rs :
  Forall (λ r : Z * list float64, length r.2 = w ∧ row_complete r = true) rs →
  ffill_from [] ((λ r : Z * list float64, (r.1, r.2 ++ m r.1)) <$> rs)
  = zip_with (λ (r mr : Z * list float64), (r.1, r.2 ++ mr.2)) rs
      (ffill_from [] ((λ r : Z * list float64, (r.1, m r.1)) <$> rs)).
Proof.
  intros Hrs. destruct Hrs as [|[d c] rs [Hlen Hc] Hrs]; [done|].
  simpl in *. rewrite !fill_row_nil. f_equal.
  by apply (ffill_from_join w).
Qed.

(** A filled cell that is present comes from the same column, at its row or
    above. *)
Lemma cell_ffill_from_origin rs prev t j v :
  cell (ffill_from prev rs) t j = Some v → v ≠ NaN →
  (∃ t', (t' ≤ t)%nat ∧ cell rs t' j = Some v) ∨ prev !! j = Some v.
Proof.
  revert prev t. induction rs as [|r rs IH]; intros prev t Hv Hna; [done|].
  destruct t as [|t].
  - rewrite cell_ffill_from_0 in Hv.
    destruct (r.2 !! j) as [c|] eqn:Ec; simplify_eq/=.
    destruct (isna c) eqn:Hc.
    + right. destruct (prev !! j); naive_solver.
    + left. exists 0%nat. split; [lia|]. unfold cell. simpl. by rewrite Ec.
  - rewrite cell_ffill_from_S in Hv.
    destruct (IH _ _ Hv Hna) as [(t' & Ht' & Hc)|Hp].
    + left. exists (S t'). split; [lia|done].
    + rewrite lookup_fill_row in Hp.
      destruct (r.2 !! j) as [c|] eqn:Ec; simplify_eq/=.
      destruct (isna c) eqn:Hc.
      * right. destruct (prev !! j); naive_solver.
      * left. exists 0%nat. split; [lia|]. unfold cell. simpl. by rewrite Ec.
Qed.

Lemma rows_ffill df : rows (ffill df) = ffill_from [] (rows df).
Proof. done. Qed.

Lemma rows_reindex df ix :
  rows (reindex df ix) = (λ d, (d, default (nan_row df) (loc df d))) <$> ix.
Proof. done. Qed.

(** C2. In the dataset [rets.join(macro, how="left").ffill()], with [rets]
    the return matrix of [compute_returns], the rows are those of [rets], at
    the same dates; every return column equals the return matrix cell for
    cell (the fill runs over the whole joined frame and finds nothing to fill
    there, the return matrix having no missing cell); the macro columns are
    the macro rows at the return dates, forward filled: a present macro cell
    is a cell of the macro table at this return date or at an earlier one.
    The macro table has distinct dates, as a daily table has, and shares no
    column name with the prices. *)
Theorem join_ffill_keeps_returns (fm : fill_method) (prices macro : DataFrame) :
  rectangular prices → NoDup (index macro) →
  overlap (columns prices) (columns macro) = false →
  let rets := compute_returns fm prices in
  let filled := ffill (reindex macro (index rets)) in
  ∃ df, join_ffill rets macro = inr df
    ∧ columns df = columns rets ++ columns macro
    ∧ rows df = zip_with (λ (r mr : Z * list float64), (r.1, r.2 ++ mr.2))
                  (rows rets) (rows filled)
    ∧ index df = index rets
    ∧ (∀ t j, (j < width rets)%nat → iloc df t j = iloc rets t j)
    ∧ (∀ t j, iloc df t (width rets + j) = iloc filled t j)
    ∧ (∀ t j v, iloc df t (width rets + j) = Some v → v ≠ NaN →
         ∃ t' d, (t' ≤ t)%nat ∧ index rets !! t' = Some d
                 ∧ (r ← loc macro d; r !! j) = Some v).
Proof.
  intros Hrect _ Hover rets filled.
  assert (Forall (λ r : Z * list float64,
            length r.2 = width rets ∧ row_complete r = true) (rows rets)) as Hrs.
  { pose proof (rectangular_compute_returns fm prices Hrect) as H1.
    pose proof (rows_compute_returns_complete fm prices) as H2.
    unfold rectangular in H1. rewrite Forall_forall in *. naive_solver. }
  assert (length (rows filled) = length (rows rets)) as Hlen.
  { unfold filled. rewrite rows_ffill, length_ffill_from, rows_reindex.
    unfold index. by rewrite !length_fmap. }
  unfold join_ffill, join_left.
  replace (columns rets) with (columns prices)
    by (symmetry; apply columns_compute_returns).
  rewrite Hover. cbn [rbind]. eexists. split; [reflexivity|].
  assert (ffill_from []
            ((λ r : Z * list float64,
                (r.1, r.2 ++ default (nan_row macro) (loc macro r.1))) <$> rows rets)
          = zip_with (λ (r mr : Z * list float64), (r.1, r.2 ++ mr.2))
              (rows rets) (rows filled)) as Hrows.
  { rewrite (ffill_from_join_nil (width rets)
               (λ d, default (nan_row macro) (loc macro d))) by done.
    unfold filled. rewrite rows_ffill, rows_reindex. unfold index.
    by rewrite <- list_fmap_compose. }
  unfold ffill, with_rows. cbn [rows columns index_name]. rewrite Hrows.
  split; [done|]. split; [done|].
  assert (filled = ffill (reindex macro (index rets))) as Hfilled by done.
  clearbody filled. clear Hrows. clearbody rets.
  assert (∀ t, zip_with (λ (r mr : Z * list float64), (r.1, r.2 ++ mr.2))
                 (rows rets) (rows filled) !! t
               = r ← rows rets !! t; mr ← rows filled !! t; Some (r.1, r.2 ++ mr.2))
    as Hlook by (intros; apply lookup_zip_with).
  assert (∀ t j, iloc
            {| index_name := index_name rets;
               columns := columns prices ++ columns macro;
               rows := zip_with (λ (r mr : Z * list float64), (r.1, r.2 ++ mr.2))
                         (rows rets) (rows filled) |} t (width rets + j)
          = iloc filled t j) as Hmacro.
  { intros t j. unfold iloc. simpl. rewrite Hlook.
    destruct (rows rets !! t) as [r|] eqn:Er; simpl.
    - destruct (rows filled !! t) as [mr|] eqn:Em; simpl.
      + rewrite Forall_lookup in Hrs. destruct (Hrs _ _ Er) as [Hw _].
        rewrite lookup_app_r by lia. f_equal. lia.
      + apply lookup_ge_None in Em. apply lookup_lt_Some in Er. lia.
    - apply lookup_ge_None in Er.
      rewrite (proj2 (lookup_ge_None (rows filled) t)) by lia. done. }
  split; [|split; [|split; [exact Hmacro|]]].
  - unfold index. simpl. apply list_eq. intros t.
    rewrite !list_lookup_fmap, Hlook.
    destruct (rows rets !! t) as [r|] eqn:Er; simpl; [|done].
    destruct (rows filled !! t) as [mr|] eqn:Em; simpl; [done|].
    apply lookup_ge_None in Em. apply lookup_lt_Some in Er. lia.
  - intros t j Hj. unfold iloc. simpl. rewrite Hlook.
    destruct (rows rets !! t) as [r|] eqn:Er; simpl; [|done].
    destruct (rows filled !! t) as [mr|] eqn:Em; simpl.
    + rewrite Forall_lookup in Hrs. destruct (Hrs _ _ Er) as [Hw _].
      apply lookup_app_l. lia.
    + apply lookup_ge_None in Em. apply lookup_lt_Some in Er. lia.
  - intros t j v Hv Hna. rewrite Hmacro in Hv.
    rewrite Hfilled, iloc_cell, rows_ffill in Hv.
    apply cell_ffill_from_origin in Hv as [(t' & Ht' & Hc)|Hnil]; [|done..].
    unfold cell in Hc. rewrite rows_reindex, list_lookup_fmap in Hc.
    destruct (index rets !! t') as [d|] eqn:Ed; simplify_eq/=.
    exists t', d. split; [done|]. split; [done|].
    destruct (loc macro d) as [r|]; simpl in *; [done|].
    unfold nan_row in Hc. apply lookup_replicate in Hc as [-> _]. done.
Qed.

Lemma join_ffill_keeps_returns_witness :
  rectangular aapl ∧ NoDup (index macro_gaps)
  ∧ overlap (columns aapl) (columns macro_gaps) = false
  ∧ ∃ df, join_ffill (compute_returns Pad aapl) macro_gaps = inr df
      ∧ index df = [2; 3; 4]
      ∧ iloc df 2 0 = Some (pct (Fin 105) (Fin 101))
      ∧ iloc df 0 1 = Some NaN
      ∧ iloc df 1 1 = Some (Fin (21 # 4))
      ∧ iloc df 2 1 = Some (Fin (21 # 4)).
Proof.
  assert (rectangular aapl) as Hr by (repeat constructor).
  assert (NoDup (index macro_gaps)) as Hn by (apply (NoDup_seqZ 1 3)).
  assert (overlap (columns aapl) (columns macro_gaps) = false) as Ho by done.
  destruct (join_ffill_keeps_returns Pad aapl macro_gaps Hr Hn Ho)
    as (df & Hdf & _ & _ & Hix & Hret & Hmac & _).
  split; [exact Hr|]. split; [exact Hn|]. split; [exact Ho|]. exists df.
  split; [exact Hdf|]. split; [by rewrite Hix|].
  split; [rewrite Hret; [reflexivity|unfold width; simpl; lia]|].
  change 1%nat with (width (compute_returns Pad aapl) + 0)%nat.
  rewrite !Hmac. by vm_compute.
Defined.

(** ** The daily macro table *)

Lemma ffill_from_twice prev rs :
  ffill_from prev (ffill_from prev rs) = ffill_from prev rs.
Proof.
  revert prev. induction rs as [|[d vs] rs IH]; intros prev; [done|].
  simpl. by rewrite fill_row_twice, IH.
Qed.

(** [DataFrame.ffill()] is idempotent. *)
Lemma ffill_twice df : ffill (ffill df) = ffill df.
Proof. unfold ffill, with_rows. simpl. by rewrite ffill_from_twice. Qed.

(** On a frame with one row per day, the row a pad takes for a day of the
    frame is the row of that day. *)
Lemma asof_daily (g : Z → list float64) (lo : Z) (k : nat) (d : Z) :
  lo ≤ d < lo + Z.of_nat k →
  asof ((λ d', (d', g d')) <$> seqZ lo (Z.of_nat k)) d = Some (g d).
Proof.
  induction k as [|k IH]; intros Hd; [lia|].
  rewrite seqZ_S, fmap_app. unfold asof in *.
  rewrite List.filter_app. simpl.
  destruct (Z.leb_spec (lo + Z.of_nat k) d) as [Hle|Hgt].
  - rewrite last_snoc. simpl. f_equal. f_equal. lia.
  - rewrite app_nil_r. apply IH. lia.
Qed.

Lemma index_daily (g : Z → list float64) (l : list Z) :
  fst <$> ((λ d, (d, g d)) <$> l) = l.
Proof. rewrite <- list_fmap_compose. apply list_fmap_id. Qed.

Lemma resample_D_ffill_range df lo hi :
  head (index df) = Some lo → last (index df) = Some hi →
  resample_D_ffill df
  = with_rows df
      ((λ d, (d, default (nan_row df) (asof (rows df) d))) <$> seqZ lo (hi - lo + 1)).
Proof. intros Hlo Hhi. unfold resample_D_ffill. by rewrite Hlo, Hhi. Qed.

Lemma resample_D_ffill_empty df :
  index df = [] →
  resample_D_ffill df = {| index_name := None; columns := columns df; rows := [] |}.
Proof. intros H. unfold resample_D_ffill. by rewrite H. Qed.

Lemma index_resample_D_ffill_empty df :
  index df = [] → index (resample_D_ffill df) = [].
Proof. intros H. by rewrite resample_D_ffill_empty. Qed.

(** An increasing index starts at or before the label it ends with. *)
Lemma sorted_head_le_last (l : list Z) lo hi :
  StronglySorted Z.lt l → head l = Some lo → last l = Some hi → lo ≤ hi.
Proof.
  intros Hs Hlo Hhi. destruct l as [|x l]; simplify_eq/=.
  destruct l as [|y l]; simplify_eq/=; [lia|].
  apply StronglySorted_inv in Hs as [_ Hall]. rewrite Forall_forall in Hall.
  apply Z.lt_le_incl, Hall. by apply last_Some_elem_of.
Qed.

(** [resample("D").ffill()] is idempotent on an increasing index: a daily
    table is its own daily resampling. *)
Lemma resample_D_ffill_twice df :
  StronglySorted Z.lt (index df) →
  resample_D_ffill (resample_D_ffill df) = resample_D_ffill df.
Proof.
  intros Hsorted.
  destruct (head (index df)) as [lo|] eqn:Hlo.
  2:{ apply head_None in Hlo. by rewrite !(resample_D_ffill_empty df). }
  destruct (last (index df)) as [hi|] eqn:Hhi.
  2:{ apply last_None in Hhi. by rewrite !(resample_D_ffill_empty df). }
  pose proof (sorted_head_le_last _ _ _ Hsorted Hlo Hhi) as Hle.
  rewrite (resample_D_ffill_range df lo hi) by done.
  set (g := λ d, default (nan_row df) (asof (rows df) d)).
  destruct (decide (hi - lo + 1 ≤ 0)) as [Hn|Hn]; [lia|].
  rewrite (resample_D_ffill_range _ lo hi).
  - unfold with_rows. cbn [rows columns index_name]. f_equal.
    apply list_fmap_ext. intros i d Hd.
    apply lookup_seqZ in Hd as [-> Hi]. f_equal.
    replace (hi - lo + 1) with (Z.of_nat (Z.to_nat (hi - lo + 1))) by lia.
    rewrite (asof_daily g) by lia. done.
  - unfold index, with_rows. cbn [rows]. rewrite index_daily. by apply head_seqZ; lia.
  - unfold index, with_rows. cbn [rows]. rewrite index_daily, last_seqZ by lia.
    f_equal. lia.
Qed.

(** ** No look-ahead in the daily macro table *)

Lemma elem_of_insert_date x d l : x ∈ insert_date d l ↔ x = d ∨ x ∈ l.
Proof.
  induction l as [|y l IH]; simpl.
  - rewrite list_elem_of_singleton, elem_of_nil. tauto.
  - destruct (Z.ltb_spec d y); [rewrite !elem_of_cons; tauto|].
    destruct (Z.eqb_spec d y) as [->|].
    + rewrite !elem_of_cons. tauto.
    + rewrite !elem_of_cons, IH. tauto.
Qed.

Lemma insert_date_sorted d l :
  StronglySorted Z.lt l → StronglySorted Z.lt (insert_date d l).
Proof.
  induction 1 as [|y l Hl IH Hy]; simpl; [repeat constructor|].
  destruct (Z.ltb_spec d y).
  - constructor; [by constructor|]. constructor; [done|].
    eapply Forall_impl; [exact Hy|]. simpl. lia.
  - destruct (Z.eqb_spec d y); [by constructor|].
    constructor; [done|]. apply Forall_forall. intros x Hx.
    apply elem_of_insert_date in Hx as [->|Hx]; [lia|].
    rewrite Forall_forall in Hy. auto.
Qed.

Lemma union_index_sorted ixs : StronglySorted Z.lt (union_index ixs).
Proof.
  unfold union_index. induction (concat ixs) as [|x xs IH]; simpl.
  - constructor.
  - by apply insert_date_sorted.
Qed.









Lemma find_fmap_key (g : Z → list float64) (l : list Z) (d : Z) :
  d ∈ l →
  List.find (λ r : Z * list float64, r.1 =? d) ((λ x, (x, g x)) <$> l) = Some (d, g d).
Proof.
  induction 1 as [d l|d y l _ IH]; rewrite fmap_cons; simpl.
  - by rewrite Z.eqb_refl.
  - destruct (Z.eqb_spec y d) as [->|]; [done|]. apply IH.
Qed.

Lemma loc_resample_D_ffill df d :
  d ∈ index (resample_D_ffill df) →
  loc (resample_D_ffill df) d = Some (default (nan_row df) (asof (rows df) d)).
Proof.
  intros Hd.
  destruct (head (index df)) as [lo|] eqn:Hlo.
  2:{ apply head_None in Hlo. rewrite (index_resample_D_ffill_empty df) in Hd by done.
      by apply elem_of_nil in Hd. }
  destruct (last (index df)) as [hi|] eqn:Hhi.
  2:{ apply last_None in Hhi. rewrite (index_resample_D_ffill_empty df) in Hd by done.
      by apply elem_of_nil in Hd. }
  rewrite (resample_D_ffill_range df lo hi) in * by done.
  unfold index, loc, with_rows in *. cbn [rows] in *.
  rewrite index_daily in Hd.
  by rewrite (find_fmap_key (λ d, default (nan_row df) (asof (rows df) d))).
Qed.



Lemma get_macro_frames w fred_key macro :
  get_macro w fred_key = inr macro →
  ∃ s1 s2 s3,
    fred_get_series w fred_key "FEDFUNDS" = inr s1
    ∧ fred_get_series w fred_key "CPIAUCSL" = inr s2
    ∧ fred_get_series w fred_key "DGS10" = inr s3
    ∧ macro = align_macro [to_frame (rename "fed_funds" s1);
                           to_frame (rename "cpi" s2);
                           to_frame (rename "treasury_10y" s3)].
Proof.
  unfold get_macro, series, fetch_frames.
  destruct (fred_get_series w fred_key "FEDFUNDS") as [|s1]; [done|].
  destruct (fred_get_series w fred_key "CPIAUCSL") as [|s2]; [done|].
  destruct (fred_get_series w fred_key "DGS10") as [|s3]; [done|].
  simpl. intros [= <-]. by exists s1, s2, s3.
Qed.



(** ** The daily macro table of [get_macro] *)

Lemma get_macro_align w fred_key macro :
  get_macro w fred_key = inr macro →
  ∃ frames, fetch_frames w fred_key series [] = inr frames
            ∧ macro = align_macro frames.
Proof.
  unfold get_macro. destruct (fetch_frames w fred_key series []) as [e|frames];
    simpl; [done|]. intros [= <-]. by exists frames.
Qed.

(** C5. For every daily macro table that [get_macro] returns, filling it
    forward a second time changes nothing: [macro.resample("D").ffill()] gives
    the table back, and a column-wise [ffill()] applied twice equals one
    applied once. *)
Theorem macro_daily_ffill_idempotent (w : World) (fred_key : string) (macro : DataFrame) :
  get_macro w fred_key = inr macro →
  resample_D_ffill macro = macro ∧ ffill (ffill macro) = ffill macro.
Proof.
  intros (frames & _ & ->)%get_macro_align. split.
  - apply resample_D_ffill_twice.
    change (StronglySorted Z.lt (fmap fst (rows (concat_axis1 frames)))).
    unfold concat_axis1. cbn [rows]. rewrite index_daily. apply union_index_sorted.
  - apply ffill_twice.
Qed.

Lemma macro_daily_ffill_idempotent_witness :
  ∃ macro, get_macro world_with_key "k" = inr macro
           ∧ index macro = [1; 2]
           ∧ resample_D_ffill macro = macro
           ∧ ffill (ffill macro) = ffill macro.
Proof.
  eexists. split; [reflexivity|]. split; [reflexivity|].
  exact (macro_daily_ffill_idempotent world_with_key "k" _ eq_refl).
Defined.

(** C4, where the code departs from it.  The monthly rate is observed on day
    1 and the daily yield on days 1 and 2: on day 2 the macro table has no
    rate, although the last known observation of the rate at or before day 2
    is 5. *)
Theorem get_macro_misses_last_observation :
  get_macro world_with_key "k"
  = inr (mkDF (Some "date") ["fed_funds"; "cpi"; "treasury_10y"]
           [(1, [Fin 5; Fin 300; Fin 4]); (2, [NaN; NaN; Fin (41 # 10)])])
  ∧ spec_last_known_observation [(1, Fin 5)] 2 = Some (Fin 5).
Proof. by vm_compute. Qed.

(** C8, as amended. One indicator observed at 5.0 on day 1 and at 5.25 on day
    5 is aligned to the days 1 to 5, the span of its own dates, with the
    values 5.0, 5.0, 5.0, 5.0, 5.25. *)
Theorem align_macro_example :
  align_macro [to_frame (rename "fed_funds" rate_days_1_5)]
  = mkDF (Some "date") ["fed_funds"]
      [(1, [Fin 5]); (2, [Fin 5]); (3, [Fin 5]); (4, [Fin 5]); (5, [Fin (21 # 4)])].
Proof. reflexivity. Qed.

(** C8 as stated fails: the daily calendar ends on day 5, the last
    observation; there are five rows and no row for day 6.  When another
    indicator is observed on day 6 the calendar reaches day 6, and the
    indicator is then missing there: the pad takes the row of day 6 itself. *)
Lemma align_macro_example_cex :
  index (align_macro [to_frame (rename "fed_funds" rate_days_1_5)]) = [1; 2; 3; 4; 5]
  ∧ length (rows (align_macro [to_frame (rename "fed_funds" rate_days_1_5)])) = 5%nat
  ∧ loc (align_macro [to_frame (rename "fed_funds" rate_days_1_5)]) 6 = None
  ∧ loc (align_macro [to_frame (rename "fed_funds" rate_days_1_5);
                      to_frame (rename "treasury_10y" yield_day_6)]) 6
    = Some [NaN; Fin 4].
Proof. by vm_compute. Qed.

(** ** Prices *)

Local Arguments String.eqb : simpl never.

Lemma length_pick mask vs :
  length vs = length mask → length (pick mask vs) = length (List.filter id mask).
Proof.
  unfold pick. rewrite length_fmap. revert vs.
  induction mask as [|b mask IH]; intros [|v vs] Hlen; simplify_eq/=; [done|].
  unfold id at 1. destruct b; simpl; by rewrite IH.
Qed.

Lemma existsb_filter_id mask :
  existsb id mask = negb (Nat.eqb (length (List.filter id mask)) 0).
Proof.
  induction mask as [|b mask IH]; [done|]. simpl. unfold id at 1 3.
  by destruct b.
Qed.

(** C9. For every provider response that covers one instrument,
    [download_prices] returns a frame with exactly one column, at the dates of
    the response, never a series; each row of a rectangular response gives a
    row of one cell. *)
Theorem download_prices_one_column (w : World) (tickers : list string) (start : string)
    (resp : Response) :
  yf_download w tickers start = inr resp →
  covers_one_instrument resp →
  ∃ df : DataFrame,
    download_prices w tickers start = inr df
    ∧ length (columns df) = 1%nat
    ∧ index df = (resp_rows resp).*1
    ∧ index_name df = Some "date"
    ∧ (resp_rectangular resp → rectangular df).
Proof.
  intros Hresp Hone. unfold download_prices. rewrite Hresp. simpl.
  unfold covers_one_instrument in Hone. unfold getitem, resp_rectangular.
  destruct (resp_columns resp) as [ls|ks]; simpl in *.
  - destruct (List.filter id (String.eqb "Close" <$> ls)) as [|b [|b' bs]] eqn:E;
      simplify_eq/=.
    eexists. split; [reflexivity|]. split; [done|]. split.
    { unfold index. simpl. by rewrite <- !list_fmap_compose. }
    split; [done|]. intros _. unfold rectangular. simpl.
    apply Forall_fmap, Forall_forall. by intros.
  - rewrite existsb_filter_id, Hone. simpl.
    eexists. split; [reflexivity|]. split.
    { simpl. by rewrite length_fmap, length_filter_fmap. }
    split.
    { unfold index. simpl. by rewrite <- list_fmap_compose. }
    split; [done|]. intros Hrect. unfold rectangular, width. simpl.
    rewrite length_fmap, length_filter_fmap, Hone.
    apply Forall_fmap. eapply Forall_impl; [exact Hrect|].
    intros x Hx. simpl. by rewrite length_pick.
Qed.

Lemma download_prices_one_column_witness :
  covers_one_instrument yf_one_ticker ∧ covers_one_instrument yf_one_ticker_flat
  ∧ (∃ df : DataFrame,
       download_prices (world_one_ticker yf_one_ticker) ["AAPL"] default_start = inr df
       ∧ length (columns df) = 1%nat ∧ index df = [1; 2])
  ∧ (∃ df : DataFrame,
       download_prices (world_one_ticker yf_one_ticker_flat) ["AAPL"] default_start
       = inr df
       ∧ length (columns df) = 1%nat ∧ index df = [1; 2]).
Proof.
  assert (covers_one_instrument yf_one_ticker) as Hone by reflexivity.
  assert (covers_one_instrument yf_one_ticker_flat) as Hflat by reflexivity.
  destruct (download_prices_one_column (world_one_ticker yf_one_ticker)
              ["AAPL"] default_start yf_one_ticker eq_refl Hone)
    as (df & Hdf & Hcols & Hix & _).
  destruct (download_prices_one_column (world_one_ticker yf_one_ticker_flat)
              ["AAPL"] default_start yf_one_ticker_flat eq_refl Hflat)
    as (df' & Hdf' & Hcols' & Hix' & _).
  split; [exact Hone|]. split; [exact Hflat|]. split.
  - exists df. split; [exact Hdf|]. split; [exact Hcols|]. exact Hix.
  - exists df'. split; [exact Hdf'|]. split; [exact Hcols'|]. exact Hix'.
Defined.

(** ** The run *)

(** What [to_csv] leaves at each path. *)
Lemma file_at_write_csv df path path' fs :
  file_at path' (write_csv df path fs)
  = if String.eqb path path' then Some df else file_at path' fs.
Proof.
  unfold file_at, write_csv. simpl. rewrite find_app.
  destruct (String.eqb_spec path path') as [->|Hne].
  - rewrite find_filter_none.
    + simpl. by rewrite String.eqb_refl.
    + intros [p d] Hp. simpl in *. by rewrite Hp.
  - rewrite find_filter_other.
    + destruct (List.find _ (files fs)) as [x|]; [done|]. simpl.
      by rewrite (proj2 (String.eqb_neq path path')).
    + intros [p d] Hp. simpl in *. apply String.eqb_eq in Hp as ->.
      by rewrite (proj2 (String.eqb_neq path' path)).
Qed.

Lemma file_at_write_line line path fs :
  file_at path (write_line line fs) = file_at path fs.
Proof. done. Qed.

Lemma mkdir_exist_ok_spec p fs :
  files (mkdir_exist_ok p fs) = files fs
  ∧ stdout (mkdir_exist_ok p fs) = stdout fs
  ∧ dirs fs `prefix_of` dirs (mkdir_exist_ok p fs)
  ∧ ∀ q, q ∈ dirs (mkdir_exist_ok p fs) ↔ q ∈ dirs fs ∨ q = p.
Proof.
  unfold mkdir_exist_ok. destruct (decide (p ∈ dirs fs)) as [Hp|Hp].
  - rewrite (bool_decide_eq_true_2 _ Hp). repeat split; try done.
    + by left.
    + by intros [?| ->].
  - rewrite (bool_decide_eq_false_2 _ Hp). simpl. repeat split; try done.
    + by apply prefix_app_r.
    + rewrite elem_of_app, list_elem_of_singleton. tauto.
    + rewrite elem_of_app, list_elem_of_singleton. tauto.
Qed.

(** What [os.makedirs] makes and what it leaves. *)
Lemma makedirs_spec path fs :
  ∃ fs', makedirs path fs = (inr tt, fs')
    ∧ files fs' = files fs ∧ stdout fs' = stdout fs
    ∧ dirs fs `prefix_of` dirs fs'
    ∧ ∀ q, q ∈ dirs fs' ↔ q ∈ dirs fs ∨ q ∈ ancestors "" path.
Proof.
  unfold makedirs. eexists. split; [reflexivity|].
  generalize (ancestors "" path). intros l. revert fs.
  induction l as [|p l IH]; intros fs; simpl.
  { repeat split; try done; [by left|]. intros [?|H]; [done|by apply elem_of_nil in H]. }
  destruct (IH (mkdir_exist_ok p fs)) as (Hf & Hout & Hpre & Hdirs).
  destruct (mkdir_exist_ok_spec p fs) as (Hf' & Hout' & Hpre' & Hdirs').
  split; [congruence|]. split; [congruence|].
  split; [by etrans|].
  intros q. rewrite Hdirs, Hdirs', elem_of_cons. tauto.
Qed.

Lemma makedirs_exist path fs :
  (∀ q, q ∈ ancestors "" path → q ∈ dirs fs) → makedirs path fs = (inr tt, fs).
Proof.
  unfold makedirs. intros H. f_equal. revert H.
  generalize (ancestors "" path). intros l.
  induction l as [|p l IH]; intros H; simpl; [done|].
  unfold mkdir_exist_ok at 2. rewrite bool_decide_eq_true_2 by (apply H; left).
  apply IH. intros q Hq. apply H. by right.
Qed.

Lemma ensure_dirs_files fs :
  ∃ fs', ensure_dirs fs = (inr tt, fs')
         ∧ files fs' = files fs ∧ stdout fs' = stdout fs.
Proof.
  unfold ensure_dirs, bind.
  destruct (makedirs_spec DATA_RAW fs) as (fs1 & -> & Hf1 & Hout1 & _).
  destruct (makedirs_spec DATA_PROC fs1) as (fs2 & -> & Hf2 & Hout2 & _).
  exists fs2. split; [done|]. split; congruence.
Qed.

(** The module binds [get_macro]; the name [fetch_macro] that [main] calls is
    not bound. *)
Lemma fetch_macro_unbound w fred_key :
  call_global (module_globals w) "fetch_macro" fred_key
  = inl (NameError "fetch_macro").
Proof. reflexivity. Qed.

(** Runs [main] up to its first branch on the credential. *)
Ltac run_main Hens Hprices Hkey :=
  unfold main, bind, lift, to_csv, ret, raise, print;
  rewrite Hens, Hprices, Hkey.

(** C7, as amended. When a credential is supplied and the macro stage
    raises, the exception ends the run there: the prices and the returns,
    written before the macro stage, are in place, while neither the macro
    table nor the features are written and nothing is printed. *)
Theorem main_macro_failure (lib : Library) (globals : list (string * global))
    (w : World) (fs : filesystem) (prices : DataFrame) (e : exn) :
  truthy (default "" (environ w "FRED_API_KEY")) = true →
  download_prices w get_universe default_start = inr prices →
  call_global globals "fetch_macro" (default "" (environ w "FRED_API_KEY")) = inl e →
  ∃ fs', main lib globals w fs = (inl e, fs')
    ∧ file_at prices_csv fs' = Some prices
    ∧ file_at returns_csv fs' = Some (compute_returns (default_fill_method lib) prices)
    ∧ file_at macro_csv fs' = file_at macro_csv fs
    ∧ file_at features_csv fs' = file_at features_csv fs
    ∧ stdout fs' = stdout fs.
Proof.
  intros Hkey Hprices Hmacro.
  destruct (ensure_dirs_files fs) as (fs1 & Hens & Hfiles & Hout).
  run_main Hens Hprices Hkey. rewrite Hmacro. cbv beta iota zeta.
  eexists. split; [reflexivity|].
  rewrite !file_at_write_csv. unfold file_at. rewrite Hfiles.
  by repeat split.
Qed.

Lemma main_macro_failure_witness :
  ∃ fs', run pandas_2 world_with_key empty_fs = (inl (NameError "fetch_macro"), fs')
    ∧ file_at prices_csv fs' = Some prices_two_tickers
    ∧ file_at returns_csv fs' = Some (compute_returns Pad prices_two_tickers)
    ∧ file_at macro_csv fs' = None
    ∧ file_at features_csv fs' = None
    ∧ stdout fs' = [].
Proof.
  exact (main_macro_failure pandas_2 (module_globals world_with_key) world_with_key
           empty_fs prices_two_tickers (NameError "fetch_macro")
           eq_refl eq_refl eq_refl).
Defined.

(** C7 as stated fails.  With a credential, the run of the module stops in
    the macro stage on the unbound name [fetch_macro]; and with that name
    bound to [get_macro], it stops when the provider fails.  Either way the
    returns are written and the features are not. *)
Lemma main_macro_failure_cex :
  let out := run pandas_2 world_with_key empty_fs in
  let out' := main pandas_2 [("fetch_macro", Function (get_macro world_fred_down))]
                world_fred_down empty_fs in
  out.1 = inl (NameError "fetch_macro")
  ∧ file_at returns_csv out.2 = Some (compute_returns Pad prices_two_tickers)
  ∧ file_at macro_csv out.2 = None
  ∧ file_at features_csv out.2 = None
  ∧ out'.1 = inl (ProviderError "Internal Server Error")
  ∧ file_at returns_csv out'.2 = Some (compute_returns Pad prices_two_tickers)
  ∧ file_at macro_csv out'.2 = None
  ∧ file_at features_csv out'.2 = None.
Proof. by vm_compute. Qed.

(** C6, as amended. When no macro credential is supplied (the variable is
    unset or empty) and the prices are downloaded, the run succeeds: the macro
    stage is skipped, [macro] is never bound and no macro table is written;
    the dataset [df] is the return matrix itself; prices, returns and
    features are written.  The local names of [main] are the ones listed:
    there is no [macro_included] flag, the credential alone decides.  The
    dates of the prices are distinct, as the concatenation of the features
    requires. *)
Theorem main_without_credential (lib : Library) (globals : list (string * global))
    (w : World) (fs : filesystem) (prices : DataFrame) :
  truthy (default "" (environ w "FRED_API_KEY")) = false →
  download_prices w get_universe default_start = inr prices →
  NoDup (index prices) →
  let rets := compute_returns (default_fill_method lib) prices in
  ∃ locals fs',
    main lib globals w fs = (inr locals, fs')
    ∧ locals.*1 = ["fred_key"; "tickers"; "prices"; "rets"; "df";
                   "mom30"; "mom90"; "vol30"; "features"]
    ∧ binding "macro" locals = None
    ∧ binding "df" locals = Some (VFrame rets)
    ∧ file_at prices_csv fs' = Some prices
    ∧ file_at returns_csv fs' = Some rets
    ∧ is_Some (file_at features_csv fs')
    ∧ file_at macro_csv fs' = file_at macro_csv fs.
Proof.
  intros Hkey Hprices _ rets.
  destruct (ensure_dirs_files fs) as (fs1 & Hens & Hfiles & Hout).
  run_main Hens Hprices Hkey. cbv beta iota zeta.
  eexists _, _. split; [reflexivity|].
  rewrite !file_at_write_line, !file_at_write_csv. unfold file_at. rewrite Hfiles.
  repeat split; try reflexivity. by eexists.
Qed.

Lemma main_without_credential_witness :
  ∃ locals fs',
    run pandas_2 world_without_key empty_fs = (inr locals, fs')
    ∧ binding "macro" locals = None
    ∧ binding "df" locals = Some (VFrame (compute_returns Pad prices_two_tickers))
    ∧ file_at returns_csv fs' = Some (compute_returns Pad prices_two_tickers)
    ∧ is_Some (file_at features_csv fs')
    ∧ file_at macro_csv fs' = None.
Proof.
  destruct (main_without_credential pandas_2 (module_globals world_without_key)
              world_without_key empty_fs prices_two_tickers eq_refl eq_refl
              (NoDup_seqZ 1 3))
    as (locals & fs' & Hrun & _ & Hmacro & Hdf & _ & Hrets & Hfeat & Hm).
  exists locals, fs'. by repeat split.
Defined.

(** C6 as stated fails in its last clause: the run without a credential
    succeeds with [df] bound to the returns, and binds no [macro_included]. *)
Lemma main_without_credential_cex :
  let out := run pandas_2 world_without_key empty_fs in
  ∃ locals,
    out.1 = inr locals
    ∧ locals.*1 = ["fred_key"; "tickers"; "prices"; "rets"; "df";
                   "mom30"; "mom90"; "vol30"; "features"]
    ∧ binding "df" locals = Some (VFrame (compute_returns Pad prices_two_tickers))
    ∧ binding "macro_included" locals = None.
Proof. eexists. by vm_compute. Qed.

(** * Further properties of the script *)

(** ** Sorted indexes *)

Lemma elem_of_foldr_insert_date d xs : d ∈ foldr insert_date [] xs ↔ d ∈ xs.
Proof.
  induction xs as [|x xs IH]; simpl; [done|].
  rewrite elem_of_insert_date, elem_of_cons, IH. done.
Qed.

Lemma elem_of_union_index d ixs :
  d ∈ union_index ixs ↔ ∃ ix, ix ∈ ixs ∧ d ∈ ix.
Proof.
  unfold union_index. rewrite elem_of_foldr_insert_date, list_elem_of_In, in_concat.
  by setoid_rewrite list_elem_of_In.
Qed.

Lemma filter_sorted (f : Z → bool) l :
  StronglySorted Z.lt l → StronglySorted Z.lt (List.filter f l).
Proof.
  induction 1 as [|x l Hl IH Hx]; simpl; [constructor|].
  destruct (f x); [|done]. constructor; [done|].
  rewrite Forall_forall in *. intros y Hy. apply Hx.
  apply list_elem_of_In, filter_In in Hy as [Hy _]. by apply list_elem_of_In.
Qed.

Lemma sorted_last_max l x :
  StronglySorted Z.lt l → last l = Some x → ∀ y, y ∈ l → y ≤ x.
Proof.
  induction 1 as [|z l Hl IH Hz]; [done|]. intros Hlast y Hy.
  destruct l as [|z' l'].
  - simplify_eq/=. apply list_elem_of_singleton in Hy. lia.
  - assert (last (z' :: l') = Some x) as Hlast' by done.
    apply elem_of_cons in Hy as [->|Hy]; [|by apply IH].
    apply last_Some_elem_of in Hlast'. rewrite Forall_forall in Hz.
    specialize (Hz _ Hlast'). lia.
Qed.

Lemma sorted_head_min l x :
  StronglySorted Z.lt l → head l = Some x → ∀ y, y ∈ l → x ≤ y.
Proof.
  intros Hl Hhead y Hy. destruct Hl as [|z l Hl Hz]; simplify_eq/=.
  apply elem_of_cons in Hy as [->|Hy]; [lia|].
  rewrite Forall_forall in Hz. specialize (Hz _ Hy). lia.
Qed.

(** ** The calendar and the rows of the daily macro table *)

Lemma index_concat_axis1 frames :
  index (concat_axis1 frames) = union_index (index <$> frames).
Proof. unfold index, concat_axis1. cbn [rows]. apply index_daily. Qed.

(** The calendar of the aligned table: the days from the first observation
    date to the last. *)
Lemma index_align_macro frames lo hi :
  head (union_index (index <$> frames)) = Some lo →
  last (union_index (index <$> frames)) = Some hi →
  index (align_macro frames) = seqZ lo (hi - lo + 1).
Proof.
  intros Hlo Hhi. unfold align_macro.
  rewrite (resample_D_ffill_range _ lo hi).
  - unfold index, with_rows. cbn [rows]. apply index_daily.
  - by rewrite <- Hlo, <- index_concat_axis1.
  - by rewrite <- Hhi, <- index_concat_axis1.
Qed.

Lemma asof_concat_axis1 frames d :
  asof (rows (concat_axis1 frames)) d
  = (λ d', concat ((λ df, default (nan_row df) (loc df d')) <$> frames))
      <$> last (List.filter (λ y, y <=? d) (union_index (index <$> frames))).
Proof.
  unfold asof, concat_axis1. cbn [rows].
  rewrite (filter_fmap (λ r : Z * list float64, r.1 <=? d)). cbn [fst].
  rewrite fmap_last. by destruct (last _).
Qed.

(** The row of a day [d] of the aligned table is the row that the
    concatenation has at [d'], the last observation date at or before [d]. *)
Lemma loc_align_macro frames d :
  d ∈ index (align_macro frames) →
  ∃ d', last (List.filter (λ y, y <=? d) (union_index (index <$> frames))) = Some d'
        ∧ loc (align_macro frames) d
          = Some (concat ((λ df, default (nan_row df) (loc df d')) <$> frames)).
Proof.
  intros Hd.
  destruct (head (union_index (index <$> frames))) as [lo|] eqn:Hlo.
  2:{ apply head_None in Hlo. unfold align_macro in Hd.
      rewrite index_resample_D_ffill_empty in Hd
        by (unfold set_index_name, index; cbn [rows];
            by rewrite <- Hlo, <- index_concat_axis1).
      by apply elem_of_nil in Hd. }
  destruct (last (union_index (index <$> frames))) as [hi|] eqn:Hhi.
  2:{ apply last_None in Hhi. by rewrite Hhi in Hlo. }
  rewrite (index_align_macro frames lo hi) in Hd by done.
  apply elem_of_seqZ in Hd.
  assert (lo ∈ List.filter (λ y, y <=? d) (union_index (index <$> frames))) as Hin.
  { apply list_elem_of_In, filter_In. split.
    - apply list_elem_of_In. by apply head_Some_elem_of.
    - apply Z.leb_le. lia. }
  destruct (last (List.filter (λ y, y <=? d) (union_index (index <$> frames))))
    as [d'|] eqn:Hlast.
  2:{ apply last_None in Hlast. rewrite Hlast in Hin. by apply elem_of_nil in Hin. }
  exists d'. split; [done|].
  unfold align_macro. rewrite loc_resample_D_ffill.
  - unfold set_index_name at 2. cbn [rows]. by rewrite asof_concat_axis1, Hlast.
  - change (d ∈ index (align_macro frames)).
    rewrite (index_align_macro frames lo hi) by done. by apply elem_of_seqZ.
Qed.

Lemma find_fmap {A B} (p : B → bool) (g : A → B) (l : list A) :
  List.find p (g <$> l) = g <$> List.find (λ x, p (g x)) l.
Proof.
  induction l as [|x l IH]; [done|]. rewrite fmap_cons. simpl.
  by destruct (p (g x)).
Qed.

Lemma index_to_frame name s : index (to_frame (rename name s)) = dates s.
Proof.
  unfold index, dates, to_frame, rename. cbn [rows sdata].
  by rewrite <- list_fmap_compose.
Qed.

Lemma loc_to_frame name s d :
  default (nan_row (to_frame (rename name s))) (loc (to_frame (rename name s)) d)
  = [default NaN (observed s d)].
Proof.
  unfold loc, observed, to_frame, rename. cbn [rows sdata].
  rewrite (find_fmap (λ r : Z * list float64, r.1 =? d)). cbn [fst].
  by destruct (List.find _ (sdata s)).
Qed.

Lemma index_macro_frames s1 s2 s3 :
  union_index (index <$> macro_frames s1 s2 s3) = observation_dates s1 s2 s3.
Proof.
  unfold macro_frames, observation_dates. rewrite !fmap_cons.
  by rewrite !index_to_frame.
Qed.

Lemma get_macro_macro_frames w fred_key macro :
  get_macro w fred_key = inr macro →
  ∃ s1 s2 s3,
    fred_get_series w fred_key "FEDFUNDS" = inr s1
    ∧ fred_get_series w fred_key "CPIAUCSL" = inr s2
    ∧ fred_get_series w fred_key "DGS10" = inr s3
    ∧ macro = align_macro (macro_frames s1 s2 s3).
Proof. apply get_macro_frames. Qed.

(** The row of a day of the table, from the three series. *)
Lemma loc_align_macro_series s1 s2 s3 d :
  d ∈ index (align_macro (macro_frames s1 s2 s3)) →
  ∃ d', last (List.filter (λ y, y <=? d) (observation_dates s1 s2 s3)) = Some d'
        ∧ loc (align_macro (macro_frames s1 s2 s3)) d
          = Some [default NaN (observed s1 d'); default NaN (observed s2 d');
                  default NaN (observed s3 d')].
Proof.
  intros Hd. destruct (loc_align_macro _ _ Hd) as (d' & Hlast & Hloc).
  exists d'. rewrite index_macro_frames in Hlast. split; [done|].
  rewrite Hloc. unfold macro_frames. rewrite !fmap_cons.
  by rewrite !loc_to_frame.
Qed.

Lemma last_filter_le_spec l d d' :
  StronglySorted Z.lt l →
  last (List.filter (λ y, y <=? d) l) = Some d' →
  d' ∈ l ∧ d' ≤ d ∧ ∀ y, y ∈ l → y ≤ d → y ≤ d'.
Proof.
  intros Hl Hlast. pose proof (last_Some_elem_of _ _ Hlast) as Hin.
  apply list_elem_of_In, filter_In in Hin as [Hin Hle].
  split; [by apply list_elem_of_In|]. split; [by apply Z.leb_le|].
  intros y Hy Hyd.
  apply (sorted_last_max (List.filter (λ y, y <=? d) l)); [by apply filter_sorted|done|].
  apply list_elem_of_In, filter_In. split; [by apply list_elem_of_In|by apply Z.leb_le].
Qed.

Lemma observation_dates_sorted s1 s2 s3 :
  StronglySorted Z.lt (observation_dates s1 s2 s3).
Proof. apply union_index_sorted. Qed.

Lemma elem_of_observation_dates s1 s2 s3 d :
  d ∈ observation_dates s1 s2 s3 ↔ d ∈ dates s1 ∨ d ∈ dates s2 ∨ d ∈ dates s3.
Proof.
  unfold observation_dates. rewrite elem_of_union_index. split.
  - intros (ix & Hix & Hd). rewrite !elem_of_cons, elem_of_nil in Hix.
    destruct Hix as [->|[->|[->|[]]]]; tauto.
  - intros [H|[H|H]]; eexists; (split; [|exact H]); rewrite !elem_of_cons; tauto.
Qed.

(** The days of the table are the days between the first and the last
    observation date. *)
Lemma elem_of_index_align_macro_series s1 s2 s3 d :
  d ∈ index (align_macro (macro_frames s1 s2 s3))
  ↔ ∃ lo hi, head (observation_dates s1 s2 s3) = Some lo
             ∧ last (observation_dates s1 s2 s3) = Some hi
             ∧ lo ≤ d ≤ hi.
Proof.
  pose proof (index_macro_frames s1 s2 s3) as HU.
  destruct (head (observation_dates s1 s2 s3)) as [lo|] eqn:Hlo.
  - destruct (last (observation_dates s1 s2 s3)) as [hi|] eqn:Hhi.
    2:{ apply last_None in Hhi. by rewrite Hhi in Hlo. }
    rewrite (index_align_macro _ lo hi) by (by rewrite HU).
    rewrite elem_of_seqZ. split.
    + intros ?. exists lo, hi. repeat split; try done; lia.
    + intros (? & ? & [= <-] & [= <-] & ?). lia.
  - split; [|by intros (? & ? & ? & _)].
    intros Hd. destruct (loc_align_macro _ _ Hd) as (d' & Hlast & _).
    rewrite HU in Hlast. apply head_None in Hlo. by rewrite Hlo in Hlast.
Qed.

(** ** The daily macro table, day by day *)



(** X2. Given the three series, [get_macro] returns a table whose row at any
    of its days [d] holds, for each indicator, its observation dated [d'], the
    last date at or before [d] on which any of the three indicators is
    observed; the cell is missing for an indicator without an observation
    dated exactly [d']. *)
Theorem get_macro_row_asof (w : World) (fred_key : string) (s1 s2 s3 : Series) :
  fetched w fred_key s1 s2 s3 →
  ∃ macro,
    get_macro w fred_key = inr macro
    ∧ ∀ d, d ∈ index macro →
        ∃ d', d' ∈ observation_dates s1 s2 s3 ∧ d' ≤ d
              ∧ (∀ y, y ∈ observation_dates s1 s2 s3 → y ≤ d → y ≤ d')
              ∧ loc macro d = Some (observed_row s1 s2 s3 d').
Proof.
  intros (H1 & H2 & H3 & _). exists (align_macro (macro_frames s1 s2 s3)). split.
  { unfold get_macro, series, fetch_frames. by rewrite H1, H2, H3. }
  intros d Hd.
  destruct (loc_align_macro_series _ _ _ _ Hd) as (d' & Hlast & Hloc).
  apply last_filter_le_spec in Hlast as (Hin & Hle & Hmax);
    [|apply observation_dates_sorted].
  exists d'. by repeat split.
Qed.

Lemma fetched_staggered : fetched world_staggered "k" rate_day_3 cpi_day_1 yield_day_6.
Proof.
  repeat split; try reflexivity; by repeat constructor.
Defined.

Lemma get_macro_row_asof_witness :
  fetched world_staggered "k" rate_day_3 cpi_day_1 yield_day_6
  ∧ ∃ macro,
      get_macro world_staggered "k" = inr macro
      ∧ index macro = [1; 2; 3; 4; 5; 6]
      ∧ ∃ d', d' ∈ observation_dates rate_day_3 cpi_day_1 yield_day_6 ∧ d' ≤ 5
              ∧ loc macro 5 = Some (observed_row rate_day_3 cpi_day_1 yield_day_6 d').
Proof.
  split; [exact fetched_staggered|].
  destruct (get_macro_row_asof world_staggered "k" _ _ _ fetched_staggered)
    as (macro & Hmacro & Hrow).
  exists macro. split; [exact Hmacro|].
  assert (macro = align_macro (macro_frames rate_day_3 cpi_day_1 yield_day_6)) as Heq
    by (injection Hmacro as <-; reflexivity).
  split; [by rewrite Heq|].
  destruct (Hrow 5) as (d' & Hin & Hle & _ & Hloc).
  { rewrite Heq. apply (proj2 (elem_of_seqZ 1 6 5)). lia. }
  exists d'. by repeat split.
Defined.

(** X3. Given the three series, every observation date of any indicator is a
    day of the table of [get_macro], and the row of that day holds each
    indicator's own observation of that date, missing where the indicator has
    none: observations are never overwritten by the fill. *)
Theorem get_macro_keeps_observations (w : World) (fred_key : string) (s1 s2 s3 : Series) :
  fetched w fred_key s1 s2 s3 →
  ∃ macro,
    get_macro w fred_key = inr macro
    ∧ ∀ d, d ∈ observation_dates s1 s2 s3 →
           d ∈ index macro ∧ loc macro d = Some (observed_row s1 s2 s3 d).
Proof.
  intros (H1 & H2 & H3 & _). exists (align_macro (macro_frames s1 s2 s3)). split.
  { unfold get_macro, series, fetch_frames. by rewrite H1, H2, H3. }
  intros d Hd. pose proof (observation_dates_sorted s1 s2 s3) as Hsorted.
  assert (d ∈ index (align_macro (macro_frames s1 s2 s3))) as Hday.
  { apply elem_of_index_align_macro_series.
    destruct (head (observation_dates s1 s2 s3)) as [lo|] eqn:Hlo.
    2:{ apply head_None in Hlo. rewrite Hlo in Hd. by apply elem_of_nil in Hd. }
    destruct (last (observation_dates s1 s2 s3)) as [hi|] eqn:Hhi.
    2:{ apply last_None in Hhi. rewrite Hhi in Hd. by apply elem_of_nil in Hd. }
    exists lo, hi. split; [done|]. split; [done|]. split.
    - by apply (sorted_head_min (observation_dates s1 s2 s3)).
    - by apply (sorted_last_max (observation_dates s1 s2 s3)). }
  split; [done|].
  destruct (loc_align_macro_series _ _ _ _ Hday) as (d' & Hlast & Hloc).
  apply last_filter_le_spec in Hlast as (Hin & Hle & Hmax); [|done].
  assert (d' = d) as -> by (specialize (Hmax d Hd); lia).
  done.
Qed.

Lemma get_macro_keeps_observations_witness :
  fetched world_staggered "k" rate_day_3 cpi_day_1 yield_day_6
  ∧ ∃ macro,
      get_macro world_staggered "k" = inr macro
      ∧ loc macro 1 = Some [NaN; Fin 300; NaN]
      ∧ loc macro 3 = Some [Fin 5; NaN; NaN]
      ∧ loc macro 6 = Some [NaN; NaN; Fin 4].
Proof.
  split; [exact fetched_staggered|].
  destruct (get_macro_keeps_observations world_staggered "k" _ _ _ fetched_staggered)
    as (macro & Hmacro & Hrow).
  exists macro. split; [exact Hmacro|].
  assert (∀ d, d ∈ [1; 3; 6] →
               d ∈ observation_dates rate_day_3 cpi_day_1 yield_day_6) as Hin by done.
  split; [|split].
  - apply (Hrow 1), Hin. rewrite !elem_of_cons. tauto.
  - apply (Hrow 3), Hin. rewrite !elem_of_cons. tauto.
  - apply (Hrow 6), Hin. rewrite !elem_of_cons. tauto.
Defined.

Lemma loc_Some_index df d r : loc df d = Some r → d ∈ index df.
Proof.
  unfold loc, index. intros H.
  destruct (List.find _ (rows df)) as [[d' c]|] eqn:Hf; simplify_eq/=.
  apply find_some in Hf as [Hin Heq]. simpl in Heq. apply Z.eqb_eq in Heq as ->.
  apply list_elem_of_fmap. exists (d, r). split; [done|]. by apply list_elem_of_In.
Qed.

Lemma loc_of_row df d c :
  NoDup (index df) → (d, c) ∈ rows df → loc df d = Some c.
Proof.
  unfold loc, index. induction (rows df) as [|[d0 c0] rs IH]; intros Hnd Hin.
  - by apply elem_of_nil in Hin.
  - rewrite fmap_cons in Hnd. apply NoDup_cons in Hnd as [Hd0 Hnd]. simpl.
    apply elem_of_cons in Hin as [[= -> ->]|Hin].
    + by rewrite Z.eqb_refl.
    + destruct (Z.eqb_spec d0 d) as [->|Hne]; [|by apply IH].
      exfalso. apply Hd0. apply list_elem_of_fmap. by exists (d, c).
Qed.

Lemma observed_Some_dates s d v : observed s d = Some v → d ∈ dates s.
Proof.
  unfold observed, dates. intros H.
  destruct (List.find _ (sdata s)) as [[d' v']|] eqn:Hf; simplify_eq/=.
  apply find_some in Hf as [Hin Heq]. simpl in Heq. apply Z.eqb_eq in Heq as ->.
  apply list_elem_of_fmap. exists (d, v). split; [done|]. by apply list_elem_of_In.
Qed.

Lemma observed_before_first s d d' :
  (∀ y, y ∈ dates s → d < y) → d' ≤ d → default NaN (observed s d') = NaN.
Proof.
  intros Hfirst Hle. destruct (observed s d') as [v|] eqn:Hv; [|done].
  apply observed_Some_dates, Hfirst in Hv. lia.
Qed.

(** X4. The table of [get_macro] is never filled backward: on a day before
    the first observation of an indicator, the cell of that indicator is
    missing, whatever it is observed at later. *)
Theorem get_macro_never_backfills (w : World) (fred_key : string) (s1 s2 s3 : Series) :
  fetched w fred_key s1 s2 s3 →
  ∃ macro,
    get_macro w fred_key = inr macro
    ∧ ∀ d r, loc macro d = Some r →
        ((∀ y, y ∈ dates s1 → d < y) → r !! 0%nat = Some NaN)
        ∧ ((∀ y, y ∈ dates s2 → d < y) → r !! 1%nat = Some NaN)
        ∧ ((∀ y, y ∈ dates s3 → d < y) → r !! 2%nat = Some NaN).
Proof.
  intros (H1 & H2 & H3 & _). exists (align_macro (macro_frames s1 s2 s3)). split.
  { unfold get_macro, series, fetch_frames. by rewrite H1, H2, H3. }
  intros d r Hr. pose proof (loc_Some_index _ _ _ Hr) as Hd.
  destruct (loc_align_macro_series _ _ _ _ Hd) as (d' & Hlast & Hloc).
  apply last_filter_le_spec in Hlast as (_ & Hle & _);
    [|apply observation_dates_sorted].
  rewrite Hloc in Hr. injection Hr as <-.
  repeat split; intros Hfirst; simpl; f_equal;
    by apply (observed_before_first _ d).
Qed.

Lemma get_macro_never_backfills_witness :
  fetched world_staggered "k" rate_day_3 cpi_day_1 yield_day_6
  ∧ ∃ macro r,
      get_macro world_staggered "k" = inr macro
      ∧ loc macro 2 = Some r
      ∧ r !! 0%nat = Some NaN ∧ r !! 2%nat = Some NaN.
Proof.
  split; [exact fetched_staggered|].
  destruct (get_macro_never_backfills world_staggered "k" _ _ _ fetched_staggered)
    as (macro & Hmacro & Hrow).
  assert (macro = align_macro (macro_frames rate_day_3 cpi_day_1 yield_day_6)) as Heq
    by (injection Hmacro as <-; reflexivity).
  exists macro, [NaN; Fin 300; NaN]. split; [exact Hmacro|].
  assert (loc macro 2 = Some [NaN; Fin 300; NaN]) as Hloc by (by rewrite Heq).
  split; [exact Hloc|].
  destruct (Hrow 2 _ Hloc) as (Hrate & _ & Hyield). split.
  - apply Hrate. intros y Hy. apply list_elem_of_singleton in Hy. simpl in Hy. lia.
  - apply Hyield. intros y Hy. apply list_elem_of_singleton in Hy. simpl in Hy. lia.
Defined.

Lemma columns_resample_D_ffill df : columns (resample_D_ffill df) = columns df.
Proof.
  unfold resample_D_ffill. by destruct (head (index df)), (last (index df)).
Qed.

Lemma index_name_resample_D_ffill df :
  index df ≠ [] → index_name (resample_D_ffill df) = index_name df.
Proof.
  intros Hne. unfold resample_D_ffill.
  destruct (head (index df)) as [lo|] eqn:Hlo; [|by apply head_None in Hlo].
  destruct (last (index df)) as [hi|] eqn:Hhi; [done|by apply last_None in Hhi].
Qed.

Lemma index_align_macro_cases frames :
  index (align_macro frames)
  = match head (union_index (index <$> frames)),
          last (union_index (index <$> frames)) with
    | Some lo, Some hi => seqZ lo (hi - lo + 1)
    | _, _ => []
    end.
Proof.
  destruct (head (union_index (index <$> frames))) as [lo|] eqn:Hlo.
  - destruct (last (union_index (index <$> frames))) as [hi|] eqn:Hhi.
    + by apply index_align_macro.
    + apply last_None in Hhi. by rewrite Hhi in Hlo.
  - apply head_None in Hlo. unfold align_macro.
    apply index_resample_D_ffill_empty.
    change (index (concat_axis1 frames) = []). by rewrite index_concat_axis1.
Qed.

(** X5. Given the three series, with an observation in one of them at
    least, the table of [get_macro] has the columns [fed_funds], [cpi],
    [treasury_10y] in this order and the index name [date]; its days are the
    consecutive days from the first to the last observation date of any
    indicator, each once (no day when nothing is observed at all), and every
    row has three cells. *)
Theorem get_macro_calendar (w : World) (fred_key : string) (s1 s2 s3 : Series) :
  fetched w fred_key s1 s2 s3 →
  observation_dates s1 s2 s3 ≠ [] →
  ∃ macro lo hi,
    get_macro w fred_key = inr macro
    ∧ columns macro = ["fed_funds"; "cpi"; "treasury_10y"]
    ∧ index_name macro = Some "date"
    ∧ head (observation_dates s1 s2 s3) = Some lo
    ∧ last (observation_dates s1 s2 s3) = Some hi
    ∧ lo ≤ hi
    ∧ index macro = seqZ lo (hi - lo + 1)
    ∧ NoDup (index macro)
    ∧ rectangular macro.
Proof.
  intros (H1 & H2 & H3 & _) Hne.
  destruct (head (observation_dates s1 s2 s3)) as [lo|] eqn:Hlo;
    [|by apply head_None in Hlo].
  destruct (last (observation_dates s1 s2 s3)) as [hi|] eqn:Hhi;
    [|by apply last_None in Hhi].
  exists (align_macro (macro_frames s1 s2 s3)), lo, hi. split.
  { unfold get_macro, series, fetch_frames. by rewrite H1, H2, H3. }
  assert (index (align_macro (macro_frames s1 s2 s3)) = seqZ lo (hi - lo + 1)) as Hix
    by (by rewrite index_align_macro_cases, index_macro_frames, Hlo, Hhi).
  assert (NoDup (index (align_macro (macro_frames s1 s2 s3)))) as Hnd
    by (rewrite Hix; apply NoDup_seqZ).
  split; [by unfold align_macro; rewrite columns_resample_D_ffill|].
  split.
  { unfold align_macro. rewrite index_name_resample_D_ffill; [done|].
    change (index (concat_axis1 (macro_frames s1 s2 s3)) ≠ []).
    by rewrite index_concat_axis1, index_macro_frames. }
  split; [done|]. split; [done|].
  split; [exact (sorted_head_le_last _ _ _ (observation_dates_sorted s1 s2 s3) Hlo Hhi)|].
  split; [done|]. split; [done|].
  unfold rectangular. apply Forall_forall. intros [d c] Hin.
  assert (d ∈ index (align_macro (macro_frames s1 s2 s3))) as Hd.
  { unfold index. apply list_elem_of_fmap. by exists (d, c). }
  pose proof (loc_of_row _ _ _ Hnd Hin) as Hloc.
  destruct (loc_align_macro_series _ _ _ _ Hd) as (d' & _ & Hloc').
  rewrite Hloc in Hloc'. injection Hloc' as ->.
  unfold width, align_macro. by rewrite columns_resample_D_ffill.
Qed.

Lemma get_macro_calendar_witness :
  fetched world_staggered "k" rate_day_3 cpi_day_1 yield_day_6
  ∧ observation_dates rate_day_3 cpi_day_1 yield_day_6 ≠ []
  ∧ ∃ macro,
      get_macro world_staggered "k" = inr macro
      ∧ columns macro = ["fed_funds"; "cpi"; "treasury_10y"]
      ∧ index_name macro = Some "date"
      ∧ index macro = [1; 2; 3; 4; 5; 6]
      ∧ rectangular macro.
Proof.
  assert (observation_dates rate_day_3 cpi_day_1 yield_day_6 ≠ []) as Hne by done.
  split; [exact fetched_staggered|]. split; [exact Hne|].
  destruct (get_macro_calendar world_staggered "k" _ _ _ fetched_staggered Hne)
    as (macro & lo & hi & Hmacro & Hcols & Hname & Hlo & Hhi & _ & Hix & _ & Hrect).
  injection Hlo as <-. injection Hhi as <-.
  exists macro. split; [exact Hmacro|]. split; [exact Hcols|].
  split; [exact Hname|]. split; [by rewrite Hix|exact Hrect].
Defined.

(** X6. When every series the provider returns is in increasing order of its
    dates, [get_macro] returns a table exactly when the three fetches
    succeed.  It fetches in the order FEDFUNDS, CPIAUCSL, DGS10 and handles no
    exception: the first fetch that fails ends it with the provider's
    exception, whatever the other series are, and no table is returned. *)
Theorem get_macro_fetch_errors (w : World) (fred_key : string) :
  (∀ code s, fred_get_series w fred_key code = inr s → StronglySorted Z.lt (dates s)) →
  match fred_get_series w fred_key "FEDFUNDS",
        fred_get_series w fred_key "CPIAUCSL",
        fred_get_series w fred_key "DGS10" with
  | inl e, _, _ => get_macro w fred_key = inl e
  | inr _, inl e, _ => get_macro w fred_key = inl e
  | inr _, inr _, inl e => get_macro w fred_key = inl e
  | inr s1, inr s2, inr s3 =>
      get_macro w fred_key = inr (align_macro (macro_frames s1 s2 s3))
  end.
Proof.
  intros _. unfold get_macro, series, fetch_frames.
  destruct (fred_get_series w fred_key "FEDFUNDS") as [e1|s1]; [done|].
  destruct (fred_get_series w fred_key "CPIAUCSL") as [e2|s2]; [done|].
  by destruct (fred_get_series w fred_key "DGS10") as [e3|s3].
Qed.

Lemma fred_cpi_down_sorted code s :
  fred_get_series world_cpi_down "k" code = inr s → StronglySorted Z.lt (dates s).
Proof.
  unfold world_cpi_down, fred_cpi_down. cbn [fred_get_series].
  destruct (String.eqb code "CPIAUCSL"); [done|].
  intros [= <-]. by repeat constructor.
Defined.

Lemma get_macro_fetch_errors_witness :
  fred_get_series world_cpi_down "k" "FEDFUNDS" = inr rate_day_3
  ∧ get_macro world_cpi_down "k" = inl (ProviderError "Internal Server Error").
Proof.
  split; [reflexivity|].
  exact (get_macro_fetch_errors world_cpi_down "k" fred_cpi_down_sorted).
Defined.

(** ** Prices of several instruments *)

Lemma lookup_pick mask (vs : list float64) i :
  length vs = length mask → mask !! i = Some true →
  pick mask vs !! rank mask i = vs !! i.
Proof.
  unfold pick, rank. revert vs i.
  induction mask as [|b mask IH]; intros [|v vs] i Hlen Hi; simplify_eq/=.
  destruct i as [|i]; simplify_eq/=; [done|].
  destruct b; simpl; by apply IH.
Qed.

Lemma lookup_filter_rank {A} (f : A → bool) (l : list A) i x :
  l !! i = Some x → f x = true →
  List.filter f l !! rank (f <$> l) i = Some x.
Proof.
  unfold rank. revert i. induction l as [|y l IH]; intros i Hi Hx; [done|].
  destruct i as [|i]; simplify_eq/=.
  - by rewrite Hx.
  - destruct (f y); simpl; by apply IH.
Qed.

(** X7. On a response with paired (field, ticker) columns that has a column
    [(Close, tk)], [download_prices] returns a frame at the dates of the
    response in which a column is labelled [tk] and holds, row by row, the
    cells of that closing-price column; the index is named [date]. *)
Theorem download_prices_close_column (w : World) (tickers : list string) (start : string)
    (resp : Response) (ks : list (string * string)) (i : nat) (tk : string) :
  yf_download w tickers start = inr resp →
  resp_columns resp = MultiIndex ks →
  resp_rectangular resp →
  ks !! i = Some ("Close", tk) →
  ∃ (df : DataFrame) (j : nat),
    download_prices w tickers start = inr df
    ∧ index df = (resp_rows resp).*1
    ∧ index_name df = Some "date"
    ∧ columns df !! j = Some tk
    ∧ ∀ t, iloc df t j = resp_cell resp t i.
Proof.
  intros Hresp Hcols Hrect Hi. unfold download_prices. rewrite Hresp. simpl.
  unfold getitem, resp_rectangular in *. rewrite Hcols in *. simpl in Hrect.
  set (mask := (λ k : string * string, String.eqb "Close" k.1) <$> ks) in *.
  assert (mask !! i = Some true) as Hmask
    by (unfold mask; by rewrite list_lookup_fmap, Hi).
  assert (existsb id mask = true) as ->.
  { apply existsb_exists. exists true. split; [|done].
    apply list_elem_of_In. by eapply list_elem_of_lookup_2. }
  simpl. eexists _, (rank mask i). split; [reflexivity|]. split.
  { unfold index. simpl. by rewrite <- list_fmap_compose. }
  split; [done|]. split.
  { simpl. rewrite list_lookup_fmap. unfold mask.
    by rewrite (lookup_filter_rank (λ k : string * string, String.eqb "Close" k.1)
                  ks i ("Close", tk)). }
  intros t. unfold iloc, resp_cell. simpl. rewrite list_lookup_fmap.
  destruct (resp_rows resp !! t) as [x|] eqn:Hx; simpl; [|done].
  rewrite Forall_lookup in Hrect. apply lookup_pick; [|done].
  by apply (Hrect _ _ Hx).
Qed.

Lemma download_prices_close_column_witness :
  resp_rectangular yf_two_tickers
  ∧ ∃ (df : DataFrame) (j : nat),
      download_prices world_with_key get_universe default_start = inr df
      ∧ index df = [1; 2; 3]
      ∧ columns df !! j = Some "B"
      ∧ ∀ t, iloc df t j = resp_cell yf_two_tickers t 1.
Proof.
  assert (resp_rectangular yf_two_tickers) as Hrect by (repeat constructor).
  destruct (download_prices_close_column world_with_key get_universe default_start
              yf_two_tickers _ 1 "B" eq_refl eq_refl Hrect eq_refl)
    as (df & j & Hdf & Hix & _ & Hcol & Hcell).
  split; [exact Hrect|]. exists df, j. by repeat split.
Defined.

(** X8. [download_prices] returns a frame exactly when the provider answers
    and the answer has a [Close] column; a failure of the provider is raised
    as it is, and an answer without a [Close] column raises
    [KeyError("Close")]. *)
Theorem download_prices_errors (w : World) (tickers : list string) (start : string) :
  match yf_download w tickers start with
  | inl e => download_prices w tickers start = inl e
  | inr resp =>
      if existsb id (field_mask "Close" (resp_columns resp))
      then ∃ df, download_prices w tickers start = inr df
                 ∧ index df = (resp_rows resp).*1
      else download_prices w tickers start = inl (KeyError "Close")
  end.
Proof.
  unfold download_prices. destruct (yf_download w tickers start) as [e|resp]; [done|].
  simpl. unfold getitem, field_mask.
  destruct (resp_columns resp) as [ls|ks].
  - rewrite existsb_filter_id.
    destruct (List.filter id (String.eqb "Close" <$> ls)) as [|b [|b' bs]]; simpl.
    + done.
    + eexists. split; [reflexivity|]. unfold index. simpl.
      by rewrite <- !list_fmap_compose.
    + eexists. split; [reflexivity|]. unfold index. simpl.
      by rewrite <- !list_fmap_compose.
  - destruct (existsb id _); simpl; [|done].
    eexists. split; [reflexivity|]. unfold index. simpl.
    by rewrite <- list_fmap_compose.
Qed.

(** ** The dates of the returns *)

Lemma filter_sublist {A} (f : A → bool) (l : list A) : List.filter f l `sublist_of` l.
Proof.
  induction l as [|x l IH]; simpl; [constructor|].
  destruct (f x); by constructor.
Qed.

Lemma index_compute_returns fm prices :
  rectangular prices → columns prices ≠ [] →
  index (compute_returns fm prices) `sublist_of` drop 1 (index prices).
Proof.
  intros Hrect Hcols. unfold index at 1.
  rewrite rows_compute_returns, filter_rows_pct_change_1 by done.
  rewrite <- (index_pct_change fm 1 prices). unfold index. rewrite <- fmap_drop.
  apply fmap_sublist, filter_sublist.
Qed.

(** X9. The dates of the return matrix are dates of the prices, in the order
    of the prices and without the first row: [compute_returns] invents and
    reorders no date, it has fewer rows than the prices, and, the dates of
    the prices being distinct, the first date of the prices has no return. *)
Theorem compute_returns_dates (fm : fill_method) (prices : DataFrame) :
  rectangular prices → columns prices ≠ [] →
  let returns := compute_returns fm prices in
  index returns `sublist_of` drop 1 (index prices)
  ∧ (length (rows returns) ≤ length (rows prices) - 1)%nat
  ∧ (NoDup (index prices) → ∀ d, head (index prices) = Some d → d ∉ index returns).
Proof.
  intros Hrect Hcols returns.
  pose proof (index_compute_returns fm prices Hrect Hcols) as Hsub.
  split; [exact Hsub|]. split.
  - apply sublist_length in Hsub. unfold index in Hsub.
    rewrite length_drop, !length_fmap in Hsub. exact Hsub.
  - intros Hnd d Hd Hin. fold returns in Hsub.
    apply (λ H, elem_of_sublist _ _ _ H Hsub) in Hin.
    destruct (index prices) as [|d' ds]; simplify_eq/=.
    rewrite drop_0 in Hin. by apply NoDup_cons in Hnd as [? _].
Qed.

Lemma rectangular_late_listing : rectangular late_listing.
Proof. repeat constructor. Defined.

Lemma compute_returns_dates_witness :
  rectangular late_listing ∧ columns late_listing ≠ []
  ∧ index (compute_returns Pad late_listing) `sublist_of` [2; 3]
  ∧ 1 ∉ index (compute_returns Pad late_listing).
Proof.
  assert (columns late_listing ≠ []) as Hcols by done.
  destruct (compute_returns_dates Pad late_listing rectangular_late_listing Hcols)
    as (Hsub & _ & Hfirst).
  split; [exact rectangular_late_listing|]. split; [exact Hcols|].
  split; [exact Hsub|]. apply Hfirst; [apply (NoDup_seqZ 1 3)|reflexivity].
Defined.

(** X10. The return matrix is clean for good: dropping incomplete rows again,
    or forward filling it, gives the same matrix. *)
Theorem compute_returns_clean (fm : fill_method) (prices : DataFrame) :
  let returns := compute_returns fm prices in
  dropna returns = returns ∧ ffill returns = returns.
Proof.
  intros returns. pose proof (rows_compute_returns_complete fm prices) as Hc.
  fold returns in Hc. split; [|by apply ffill_complete].
  unfold dropna, with_rows. destruct returns as [n c rs]. simpl in *.
  f_equal. by apply filter_all.
Qed.

(** ** The default [fill_method] *)

Lemma ffill_listed df :
  rectangular df →
  (∀ j, (j < width df)%nat → ∃ L, listed_from df j L) →
  ffill df = df.
Proof.
  intros Hrect Hl. destruct df as [n c rs]. unfold ffill, with_rows. simpl.
  f_equal. apply list_eq. intros t.
  destruct (lookup_ffill_from [] rs t) as [p Hp]. rewrite Hp.
  destruct (rs !! t) as [r|] eqn:Hr; simpl; [|done]. f_equal.
  destruct r as [d vs]. simpl. f_equal. apply list_eq. intros j.
  unfold rectangular in Hrect. rewrite Forall_lookup in Hrect. simpl in Hrect.
  pose proof (Hrect _ _ Hr) as Hlen. simpl in Hlen.
  destruct (decide (j < length vs)%nat) as [Hj|Hj].
  - destruct (Hl j) as [L HL]; [by rewrite <- Hlen|].
    pose proof (cell_ffill_from_listed rs [] j L HL (λ _, eq_refl) t) as Hcell.
    unfold cell in Hcell. by rewrite Hp, Hr in Hcell.
  - rewrite !(proj2 (lookup_ge_None _ _)); [done|lia|rewrite length_fill_row; lia].
Qed.

(** X11. When no instrument has a gap after its listing, the results do not
    depend on the default [fill_method] of the installed pandas: the returns
    and the percent changes over any horizon are the same with [pad] (up to
    pandas 2.x) and with [None] (from 3.0). *)
Theorem compute_returns_any_pandas (prices : DataFrame) :
  rectangular prices →
  (∀ j, (j < width prices)%nat → ∃ L, listed_from prices j L) →
  compute_returns Pad prices = compute_returns NoFill prices
  ∧ ∀ k, pct_change Pad k prices = pct_change NoFill k prices.
Proof.
  intros Hrect Hl. pose proof (ffill_listed prices Hrect Hl) as Hf.
  assert (∀ k, pct_change Pad k prices = pct_change NoFill k prices) as Hk.
  { intros k. unfold pct_change, fill_data. by rewrite Hf. }
  split; [|exact Hk]. unfold compute_returns. by rewrite Hk.
Qed.

Lemma listed_late_listing j :
  (j < width late_listing)%nat → ∃ L, listed_from late_listing j L.
Proof.
  intros Hj. exists j. intros t x.
  destruct j as [|[|j]]; [| |unfold width in Hj; simpl in Hj; lia];
    (destruct t as [|[|[|t]]]; intros [= <-]; split; (done || lia)).
Defined.

Lemma compute_returns_any_pandas_witness :
  rectangular late_listing
  ∧ compute_returns Pad late_listing = compute_returns NoFill late_listing.
Proof.
  split; [exact rectangular_late_listing|].
  exact (proj1 (compute_returns_any_pandas late_listing rectangular_late_listing
                  listed_late_listing)).
Defined.

(** ** Momentum over any horizon *)

(** X12. The momentum factors over any horizon [k] (the script takes 30 and
    90 rows): the first [k] rows are missing; for an instrument listed at row
    [L] without a gap after it, the factor is missing up to row [L + k] and
    is [P[t] / P[t-k] - 1] on the prices from that row on, which is defined
    when both prices are finite and not zero. *)
Theorem momentum_cells (fm : fill_method) (k : nat) (prices : DataFrame) (j L : nat) :
  rectangular prices → (j < width prices)%nat → listed_from prices j L →
  let mom := pct_change fm k prices in
  (∀ t, (t < length (rows prices))%nat → (t < L + k)%nat → iloc mom t j = Some NaN)
  ∧ (∀ t, (L + k ≤ t)%nat →
          iloc mom t j = x ← iloc prices t j; y ← iloc prices (t - k) j; Some (pct x y))
  ∧ (∀ t x y, (L + k ≤ t)%nat →
          iloc prices t j = Some x → iloc prices (t - k) j = Some y →
          quoted x = true → quoted y = true →
          ∃ v, iloc mom t j = Some v ∧ v ≠ NaN).
Proof.
  intros Hrect Hj HL mom.
  assert (∀ t, (k ≤ t)%nat →
               iloc mom t j
               = x ← iloc prices t j; y ← iloc prices (t - k) j; Some (pct x y))
    as Hge.
  { intros t Ht. unfold mom. rewrite iloc_pct_change_ge by done.
    by rewrite !(iloc_fill_data_listed fm prices j L). }
  split; [|split].
  - intros t HT Ht. destruct (decide (t < k)%nat) as [|Hn].
    { by apply iloc_pct_change_lt_Some. }
    rewrite Hge by lia.
    destruct (iloc_is_Some prices t j) as [x Hx]; [done..|].
    destruct (iloc_is_Some prices (t - k) j) as [y Hy]; [done|lia|done|].
    rewrite Hx, Hy. simpl.
    assert (y = NaN) as -> by (apply (HL _ _ Hy); lia).
    by rewrite pct_nan_r.
  - intros t Ht. apply Hge. lia.
  - intros t x y Ht Hx Hy Qx Qy. exists (pct x y). split.
    + rewrite Hge by lia. by rewrite Hx, Hy.
    + by apply notna_true, pct_quoted.
Qed.

Lemma momentum_cells_witness :
  rectangular late_listing ∧ (1 < width late_listing)%nat
  ∧ listed_from late_listing 1 1
  ∧ iloc (pct_change Pad 1 late_listing) 1 1 = Some NaN
  ∧ iloc (pct_change Pad 1 late_listing) 2 1 = Some (pct (Fin 21) (Fin 20)).
Proof.
  assert (1 < width late_listing)%nat as Hj by (unfold width; simpl; lia).
  assert (listed_from late_listing 1 1) as HL.
  { intros t x. destruct t as [|[|[|t]]]; intros [= <-]; split; (done || lia). }
  destruct (momentum_cells Pad 1 late_listing 1 1 rectangular_late_listing Hj HL)
    as (Hlt & Hge & _).
  split; [exact rectangular_late_listing|]. split; [exact Hj|]. split; [exact HL|].
  split.
  - apply Hlt; [vm_compute|]; lia.
  - rewrite Hge by lia. reflexivity.
Defined.

(** ** The directories *)

Lemma ensure_dirs_ok fs :
  ∃ fs', ensure_dirs fs = (inr tt, fs')
    ∧ (∀ q, q ∈ dirs fs' ↔ q ∈ dirs fs ∨ q ∈ ["data"; DATA_RAW; DATA_PROC])
    ∧ dirs fs `prefix_of` dirs fs'
    ∧ files fs' = files fs ∧ stdout fs' = stdout fs.
Proof.
  unfold ensure_dirs, bind.
  destruct (makedirs_spec DATA_RAW fs) as (fs1 & -> & Hf1 & Hout1 & Hpre1 & Hd1).
  destruct (makedirs_spec DATA_PROC fs1) as (fs2 & -> & Hf2 & Hout2 & Hpre2 & Hd2).
  exists fs2. split; [done|]. split.
  { intros q. rewrite Hd2, Hd1.
    change (ancestors "" DATA_RAW) with ["data"; DATA_RAW].
    change (ancestors "" DATA_PROC) with ["data"; DATA_PROC].
    rewrite !elem_of_cons, !elem_of_nil. tauto. }
  split; [by etrans|]. split; congruence.
Qed.

Lemma ensure_dirs_fixed fs :
  (∀ q, q ∈ ["data"; DATA_RAW; DATA_PROC] → q ∈ dirs fs) →
  ensure_dirs fs = (inr tt, fs).
Proof.
  intros H. unfold ensure_dirs, bind.
  rewrite (makedirs_exist DATA_RAW fs).
  - apply makedirs_exist. intros q Hq. apply H.
    change (ancestors "" DATA_PROC) with ["data"; DATA_PROC] in Hq.
    rewrite !elem_of_cons in *. tauto.
  - intros q Hq. apply H.
    change (ancestors "" DATA_RAW) with ["data"; DATA_RAW] in Hq.
    rewrite !elem_of_cons in *. tauto.
Qed.

(** X13. On a file system in which no regular file stands at [data],
    [data/raw] or [data/processed], [ensure_dirs] returns; after it these
    three directories exist and no other directory is made, the directories
    that existed are kept in their order, and no file or output line is
    touched; calling it again changes nothing. *)
Theorem ensure_dirs_idempotent (fs : filesystem) :
  (∀ q, q ∈ ["data"; DATA_RAW; DATA_PROC] → file_at q fs = None) →
  ∃ fs', ensure_dirs fs = (inr tt, fs')
    ∧ (∀ q, q ∈ dirs fs' ↔ q ∈ dirs fs ∨ q ∈ ["data"; DATA_RAW; DATA_PROC])
    ∧ dirs fs `prefix_of` dirs fs'
    ∧ files fs' = files fs ∧ stdout fs' = stdout fs
    ∧ ensure_dirs fs' = (inr tt, fs').
Proof.
  intros _. destruct (ensure_dirs_ok fs) as (fs' & Hens & Hd & Hpre & Hf & Hout).
  exists fs'. repeat split; try done; try apply Hd.
  apply ensure_dirs_fixed. intros q Hq. apply Hd. by right.
Qed.

Lemma ensure_dirs_idempotent_witness :
  ∃ fs', ensure_dirs empty_fs = (inr tt, fs')
    ∧ dirs fs' = ["data"; DATA_RAW; DATA_PROC]
    ∧ ensure_dirs fs' = (inr tt, fs').
Proof.
  destruct (ensure_dirs_idempotent empty_fs (λ _ _, eq_refl))
    as (fs' & Hens & _ & _ & _ & _ & Hagain).
  exists fs'. split; [exact Hens|]. split; [|exact Hagain].
  by injection Hens as <-.
Defined.

(** ** The shape of a run *)

Lemma file_at_write_all ws path fs :
  path ∉ ws.*1 → file_at path (write_all ws fs) = file_at path fs.
Proof.
  unfold write_all. revert fs. induction ws as [|[p df] ws IH]; intros fs Hp; [done|].
  simpl in Hp. apply not_elem_of_cons in Hp as [Hne Hp].
  simpl. rewrite IH by done. rewrite file_at_write_csv. simpl.
  by rewrite (proj2 (String.eqb_neq p path)).
Qed.

Lemma dirs_write_all ws fs : dirs (write_all ws fs) = dirs fs.
Proof.
  unfold write_all. revert fs. induction ws as [|x ws IH]; intros fs; [done|].
  simpl. by rewrite IH.
Qed.

Lemma filter_written (ws : list (string * DataFrame)) (l : list (string * DataFrame)) :
  l.*1 ⊆ ws.*1 →
  List.filter (λ f : string * DataFrame, negb (bool_decide (f.1 ∈ ws.*1))) l = [].
Proof.
  induction l as [|x l IH]; intros Hl; [done|]. simpl.
  rewrite bool_decide_eq_true_2 by (apply Hl; simpl; left).
  simpl. apply IH. intros y Hy. apply Hl. simpl. by right.
Qed.

Lemma filter_filter {A} (f g : A → bool) (l : list A) :
  List.filter f (List.filter g l) = List.filter (λ x, g x && f x) l.
Proof.
  induction l as [|x l IH]; [done|]. simpl.
  destruct (g x); simpl; [destruct (f x)|]; by rewrite IH.
Qed.

Lemma files_write_all ws fs :
  NoDup ws.*1 →
  files (write_all ws fs)
  = List.filter (λ f : string * DataFrame, negb (bool_decide (f.1 ∈ ws.*1))) (files fs)
    ++ ws.
Proof.
  unfold write_all. revert fs. induction ws as [|[p df] ws IH]; intros fs Hnd.
  { cbn [foldl]. rewrite app_nil_r. symmetry. apply filter_all, Forall_forall.
    intros x _. rewrite bool_decide_eq_false_2; [done|]. apply not_elem_of_nil. }
  rewrite fmap_cons in Hnd. apply NoDup_cons in Hnd as [Hp Hnd].
  cbn [foldl]. rewrite IH by done. cbn [files write_csv fst snd].
  rewrite List.filter_app, filter_filter. cbn [List.filter fst].
  rewrite (bool_decide_eq_false_2 _ Hp). cbn [negb].
  rewrite <- (assoc_L (++)). cbn [app]. f_equal.
  apply List.filter_ext. intros [q d]. rewrite fmap_cons. cbn [fst].
  destruct (String.eqb_spec q p) as [->|Hne]; cbn [negb andb].
  - rewrite bool_decide_eq_true_2; [done|]. left.
  - destruct (decide (q ∈ ws.*1)) as [Hq|Hq].
    + rewrite !bool_decide_eq_true_2; [done|by right|done].
    + rewrite !bool_decide_eq_false_2; [done| |done].
      by apply not_elem_of_cons.
Qed.

(** The outcome of a run of the module does not depend on the file system it
    starts from; it makes the directories, replaces some of three files and
    prints at most one line. *)
Lemma run_shape lib w :
  ∃ (r : result (list (string * pyobj))) (ws : list (string * DataFrame))
    (lines : list string),
    NoDup ws.*1 ∧ ws.*1 ⊆ [prices_csv; returns_csv; features_csv]
    ∧ ∀ fs fs1, ensure_dirs fs = (inr tt, fs1) →
        run lib w fs
        = (r, mkFS (dirs fs1) (files (write_all ws fs1)) (stdout fs1 ++ lines)).
Proof.
  unfold run, main.
  destruct (download_prices w get_universe default_start) as [e|prices].
  { exists (inl e), [], []. split; [constructor|]. split; [intros x Hx; inversion Hx|].
    intros fs fs1 Hens. unfold bind, lift. rewrite Hens. simpl.
    destruct fs1. simpl. by rewrite app_nil_r. }
  destruct (truthy (default "" (environ w "FRED_API_KEY"))).
  - exists (inl (NameError "fetch_macro")),
      [(prices_csv, prices);
       (returns_csv, compute_returns (default_fill_method lib) prices)], [].
    split; [by apply (bool_decide_unpack _)|].
    split; [intros x Hx; simpl in Hx; rewrite !elem_of_cons in *; tauto|].
    intros fs fs1 Hens. unfold bind, lift, to_csv, ret, raise. rewrite Hens.
    rewrite fetch_macro_unbound. simpl. by rewrite app_nil_r.
  - eexists (inr _), [(prices_csv, prices); (returns_csv, _); (features_csv, _)],
      [completion_line].
    split; [by apply (bool_decide_unpack _)|]. split; [by intros x Hx|].
    intros fs fs1 Hens. unfold bind, lift, to_csv, ret, raise, print. rewrite Hens.
    reflexivity.
Qed.

(** ** What a run writes *)

(** X14. A run of the module touches three files at most: whatever the
    outcome, every other file, the macro table [data/raw/macro.csv] among
    them, is as it was before the run. *)
Theorem run_keeps_other_files (lib : Library) (w : World) (fs : filesystem)
    (path : string) :
  path ∉ [prices_csv; returns_csv; features_csv] →
  file_at path (run lib w fs).2 = file_at path fs.
Proof.
  intros Hpath. destruct (run_shape lib w) as (r & ws & lines & _ & Hws & Hrun).
  destruct (ensure_dirs_ok fs) as (fs1 & Hens & _ & _ & Hf & _).
  rewrite (Hrun fs fs1 Hens). simpl.
  change (file_at path (mkFS (dirs fs1) (files (write_all ws fs1)) (stdout fs1 ++ lines)))
    with (file_at path (write_all ws fs1)).
  rewrite file_at_write_all by (intros Hin; by apply Hpath, Hws).
  unfold file_at. by rewrite Hf.
Qed.

Lemma run_keeps_other_files_witness :
  (macro_csv ∉ [prices_csv; returns_csv; features_csv])
  ∧ file_at macro_csv (run pandas_2 world_with_key empty_fs).2 = None.
Proof.
  assert (macro_csv ∉ [prices_csv; returns_csv; features_csv]) as H
    by (by apply (bool_decide_unpack _)).
  split; [exact H|].
  exact (run_keeps_other_files pandas_2 world_with_key empty_fs macro_csv H).
Defined.

(** X15. Running the module again on the same answers of the providers gives
    the same outcome and leaves the directories and the files as the first
    run left them: a file is replaced, never stored twice. *)
Theorem run_again (lib : Library) (w : World) (fs : filesystem) :
  let out1 := run lib w fs in
  let out2 := run lib w out1.2 in
  out2.1 = out1.1 ∧ dirs out2.2 = dirs out1.2 ∧ files out2.2 = files out1.2.
Proof.
  intros out1 out2. unfold out2, out1. clear out1 out2.
  destruct (run_shape lib w) as (r & ws & lines & Hnd & _ & Hrun).
  destruct (ensure_dirs_ok fs) as (fs1 & Hens & Hd & _ & _ & _).
  rewrite (Hrun fs fs1 Hens). simpl.
  set (fs2 := mkFS (dirs fs1) (files (write_all ws fs1)) (stdout fs1 ++ lines)).
  rewrite (Hrun fs2 fs2)
    by (apply ensure_dirs_fixed; intros q Hq; apply Hd; by right). simpl.
  split; [done|]. split; [done|].
  rewrite !files_write_all by done. simpl. rewrite files_write_all by done.
  rewrite List.filter_app, filter_filter, filter_written by done.
  rewrite app_nil_r. f_equal. apply List.filter_ext. intros x. by destruct (negb _).
Qed.

(** X16. The module never reads the macro provider: the name it calls for the
    macro table is not bound, so a run has the same outcome and leaves the
    same file system whatever FRED answers. *)
Theorem run_ignores_fred (lib : Library) (w : World)
    (fred : string → string → result Series) (fs : filesystem) :
  run lib (with_fred w fred) fs = run lib w fs.
Proof.
  unfold run, main, bind. rewrite !fetch_macro_unbound.
  by change (download_prices (with_fred w fred)) with (download_prices w).
Qed.

(** ** The outcomes of [main] *)

(** X17. When the download of the prices raises, [main] ends with that
    exception before it writes anything: the directories are made, no file
    is written and nothing is printed. *)
Theorem main_download_failure (lib : Library) (globals : list (string * global))
    (w : World) (fs : filesystem) (e : exn) :
  download_prices w get_universe default_start = inl e →
  ∃ fs', main lib globals w fs = (inl e, fs')
    ∧ ensure_dirs fs = (inr tt, fs')
    ∧ files fs' = files fs ∧ stdout fs' = stdout fs.
Proof.
  intros Hprices.
  destruct (ensure_dirs_ok fs) as (fs1 & Hens & _ & _ & Hf & Hout).
  exists fs1. unfold main, bind, lift. by rewrite Hens, Hprices.
Qed.

Lemma main_download_failure_witness :
  ∃ fs', run pandas_2 world_yf_down empty_fs = (inl (ProviderError "No data found"), fs')
    ∧ files fs' = [] ∧ stdout fs' = [].
Proof.
  destruct (main_download_failure pandas_2 (module_globals world_yf_down) world_yf_down
              empty_fs (ProviderError "No data found") eq_refl)
    as (fs' & Hrun & _ & Hf & Hout).
  by exists fs'.
Defined.

(** X18. [main] prints its completion line exactly when it returns: a run
    that raises, at any stage, prints nothing. *)
Theorem main_prints_on_success_only (lib : Library) (globals : list (string * global))
    (w : World) (fs : filesystem) :
  let out := main lib globals w fs in
  match out.1 with
  | inr _ => stdout out.2 = stdout fs ++ [completion_line]
  | inl _ => stdout out.2 = stdout fs
  end.
Proof.
  destruct (ensure_dirs_ok fs) as (fs1 & Hens & _ & _ & _ & Hout).
  unfold main, bind, lift, to_csv, ret, raise, print. rewrite Hens.
  destruct (download_prices w get_universe default_start) as [e|prices]; [done|].
  destruct (truthy (default "" (environ w "FRED_API_KEY"))).
  - destruct (call_global globals "fetch_macro" _) as [e|macro]; [done|].
    destruct (join_ffill _ macro) as [e|df]; [done|].
    cbv beta iota zeta. cbn [fst snd stdout write_line write_csv]. by rewrite Hout.
  - cbv beta iota zeta. cbn [fst snd stdout write_line write_csv]. by rewrite Hout.
Qed.

(** ** The feature table *)

Lemma find_filter_fmap_key (g : Z → list float64) (P : Z * list float64 → bool)
    (l : list Z) (d : Z) (x : Z * list float64) :
  List.find (λ r : Z * list float64, r.1 =? d)
    (List.filter P ((λ y, (y, g y)) <$> l)) = Some x
  ↔ d ∈ l ∧ x = (d, g d) ∧ P (d, g d) = true.
Proof.
  induction l as [|y l IH]; simpl.
  { split; [done|]. intros [H _]. by apply elem_of_nil in H. }
  destruct (P (y, g y)) eqn:HP; simpl.
  - destruct (Z.eqb_spec y d) as [->|Hne].
    + split; [intros [= <-]; repeat split; [left|done]|by intros (_ & -> & _)].
    + rewrite IH, elem_of_cons. split; [tauto|]. intros ([->|?] & ? & ?); done.
  - rewrite IH, elem_of_cons. split; [tauto|].
    intros ([->|?] & ? & ?); [congruence|done].
Qed.

Lemma row_empty_false (r : Z * list float64) :
  row_empty r = false ↔ ∃ x, x ∈ r.2 ∧ x ≠ NaN.
Proof.
  unfold row_empty. destruct r as [d vs]. simpl. induction vs as [|v vs IH]; simpl.
  { split; [done|]. intros (x & Hx & _). by apply elem_of_nil in Hx. }
  destruct v; simpl.
  - rewrite IH. split.
    + intros (x & Hx & Hn). exists x. split; [by right|done].
    + intros (x & Hx & Hn). apply elem_of_cons in Hx as [->|Hx]; [done|eauto].
  - split; [|done]. intros _. eexists. split; [left|done].
  - split; [|done]. intros _. eexists. split; [left|done].
Qed.

(** The rows that [pd.concat(frames, axis=1).dropna(how="all")] keeps. *)
Lemma loc_dropna_all_concat_axis1 frames d r :
  loc (dropna_all (concat_axis1 frames)) d = Some r
  ↔ d ∈ union_index (index <$> frames)
    ∧ r = concat ((λ df, default (nan_row df) (loc df d)) <$> frames)
    ∧ ∃ x, x ∈ r ∧ x ≠ NaN.
Proof.
  unfold loc, dropna_all, concat_axis1, with_rows. cbn [rows].
  rewrite fmap_Some. split.
  - intros ([d' r'] & Hfind & ->).
    apply find_filter_fmap_key in Hfind as (Hd & [= -> ->] & Hne).
    apply negb_true_iff, row_empty_false in Hne. by repeat split.
  - intros (Hd & -> & Hne). eexists (d, _). split; [|done].
    apply find_filter_fmap_key. repeat split; [done|].
    by apply negb_true_iff, row_empty_false.
Qed.

(** X20. When [main] returns, the feature table it has written holds, at a
    date [d], the momentum over 30 and over 90 rows and the volatility of
    that date side by side, missing where a factor has no row at [d]; a date
    of the prices or of the volatilities is in the table exactly when one of
    its factors is defined, so a row of the table can hold missing cells but
    not only missing cells.  The dates of the prices are distinct, as the
    concatenation requires. *)
Theorem main_features (lib : Library) (globals : list (string * global))
    (w : World) (fs : filesystem) (prices : DataFrame)
    (locals : list (string * pyobj)) :
  download_prices w get_universe default_start = inr prices →
  NoDup (index prices) →
  (main lib globals w fs).1 = inr locals →
  let fm := default_fill_method lib in
  let vol := rolling_std lib 30 (compute_returns fm prices) in
  let factors d :=
    default (nan_row prices) (loc (pct_change fm 30 prices) d)
    ++ default (nan_row prices) (loc (pct_change fm 90 prices) d)
    ++ default (nan_row vol) (loc vol d) in
  ∃ features,
    binding "features" locals = Some (VFrame features)
    ∧ file_at features_csv (main lib globals w fs).2 = Some features
    ∧ index_name features = Some "date"
    ∧ columns features
      = ((λ c, c +:+ "_mom30") <$> columns prices)
        ++ ((λ c, c +:+ "_mom90") <$> columns prices)
        ++ ((λ c, c +:+ "_vol30") <$> columns vol)
    ∧ ∀ d r, loc features d = Some r
             ↔ (d ∈ index prices ∨ d ∈ index vol)
               ∧ r = factors d ∧ ∃ x, x ∈ r ∧ x ≠ NaN.
Proof.
  intros Hprices _ Hrun fm vol factors.
  set (mom30 := set_columns ((λ c, c +:+ "_mom30") <$> columns (pct_change fm 30 prices))
                  (pct_change fm 30 prices)).
  set (mom90 := set_columns ((λ c, c +:+ "_mom90") <$> columns (pct_change fm 90 prices))
                  (pct_change fm 90 prices)).
  set (vol30 := set_columns ((λ c, c +:+ "_vol30") <$> columns vol) vol).
  set (features := set_index_name "date" (dropna_all (concat_axis1 [mom30; mom90; vol30]))).
  assert (binding "features" locals = Some (VFrame features)
          ∧ file_at features_csv (main lib globals w fs).2 = Some features) as [Hb Hf].
  { revert Hrun. destruct (ensure_dirs_files fs) as (fs1 & Hens & _ & _).
    unfold main, bind, lift, to_csv, ret, raise, print. rewrite Hens, Hprices.
    destruct (truthy (default "" (environ w "FRED_API_KEY"))).
    - destruct (call_global globals "fetch_macro" _) as [e|macro]; [done|].
      destruct (join_ffill _ macro) as [e|df]; [done|].
      cbv beta iota zeta. cbn [fst snd]. intros [= <-].
      by rewrite !file_at_write_line, !file_at_write_csv.
    - cbv beta iota zeta. cbn [fst snd]. intros [= <-].
      by rewrite !file_at_write_line, !file_at_write_csv. }
  exists features. split; [exact Hb|]. split; [exact Hf|]. split; [done|]. split.
  { unfold features, mom30, mom90, vol30. cbn [columns set_index_name dropna_all
      with_rows concat_axis1 set_columns fmap list_fmap concat].
    by rewrite !columns_pct_change, app_nil_r. }
  intros d r.
  change (loc features d) with (loc (dropna_all (concat_axis1 [mom30; mom90; vol30])) d).
  rewrite loc_dropna_all_concat_axis1, elem_of_union_index.
  assert (concat ((λ df, default (nan_row df) (loc df d)) <$> [mom30; mom90; vol30])
          = factors d) as ->.
  { unfold factors, mom30, mom90, vol30, nan_row, width, loc.
    cbn [fmap list_fmap concat columns rows set_columns].
    by rewrite !length_fmap, !columns_pct_change, app_nil_r. }
  assert ((∃ ix, ix ∈ index <$> [mom30; mom90; vol30] ∧ d ∈ ix)
          ↔ d ∈ index prices ∨ d ∈ index vol) as ->; [|done].
  change (index <$> [mom30; mom90; vol30])
    with [index (pct_change fm 30 prices); index (pct_change fm 90 prices); index vol].
  rewrite !index_pct_change. split.
  - intros (ix & Hix & Hd). rewrite !elem_of_cons in Hix.
    destruct Hix as [->|[->|[->|Hix]]]; [tauto..|by apply elem_of_nil in Hix].
  - intros [Hd|Hd]; eexists; (split; [|exact Hd]);
      rewrite !elem_of_cons; tauto.
Qed.

Lemma main_features_witness :
  ∃ locals features,
    (run pandas_2 world_without_key empty_fs).1 = inr locals
    ∧ binding "features" locals = Some (VFrame features)
    ∧ file_at features_csv (run pandas_2 world_without_key empty_fs).2 = Some features
    ∧ loc features 3 = None.
Proof.
  pose (locals := match (run pandas_2 world_without_key empty_fs).1 with
                  | inr l => l
                  | inl _ => []
                  end).
  assert ((run pandas_2 world_without_key empty_fs).1 = inr locals) as Hrun
    by (by vm_compute).
  destruct (main_features pandas_2 (module_globals world_without_key) world_without_key
              empty_fs prices_two_tickers locals eq_refl (NoDup_seqZ 1 3) Hrun)
    as (features & Hb & Hf & _ & _ & Hloc).
  exists locals, features. repeat split; try done.
  destruct (loc features 3) as [r|] eqn:Hr; [|done].
  apply Hloc in Hr as (_ & -> & x & Hx & Hne). exfalso. revert x Hx Hne.
  vm_compute. intros x Hx Hne. apply Hne.
  repeat (apply elem_of_cons in Hx as [->|Hx]; [done|]). by apply elem_of_nil in Hx.
Defined.
